(** * Hotel reservation system: a shallow embedding and its verification

    The development follows the layout of the Python sources:

    - [hotel.py], [customer.py], [reservation.py]: the entities (Modules
      [Hotel], [Customer], [Reservation])
    - [storage.py]: the JSON record store
    - [services.py]: the CRUD and reservation logic

    Python strings are modelled by [string]; a character of a [string] stands
    for the code point of the same number, so that the strings of the model
    are the Python strings over the code points 0..255.  Python integers
    are [Z].
    The three JSON files of the application live on a [disk]; the state that
    the service functions thread is a [world]: the disk together with the
    lines printed on stderr.  Exceptions are explicit: a computation either
    returns ([Ret]) or raises ([Raise]).

    Operating-system failures (a disk that refuses to create, read or replace
    a file) are outside the model: every requested file operation is carried
    out.  What a file contains is, on the contrary, fully part of the model,
    including content that cannot be decoded or parsed. *)

From Stdlib Require Import ZArith Lia Ascii String List.
From Stdlib Require Import Floats.SpecFloat.
From stdpp Require Import base option list gmap strings pretty.

#[local] Set Warnings "-register-all".
#[local] Open Scope Z_scope.

(** ** Exceptions and results *)

(** The exception classes that the program can meet.  [JSONDecodeError] and
    [UnicodeDecodeError] are subclasses of [ValueError] in Python. *)
Inductive exn :=
  | KeyError (key : string)
  | ValueError (msg : string)
  | TypeError
  | OverflowError
  | JSONDecodeError
  | UnicodeDecodeError
  | OSError.

Definition is_KeyError (e : exn) : bool :=
  match e with KeyError _ => true | _ => false end.

Definition is_ValueError (e : exn) : bool :=
  match e with
  | ValueError _ | JSONDecodeError | UnicodeDecodeError => true
  | _ => false
  end.

Definition is_TypeError (e : exn) : bool :=
  match e with TypeError => true | _ => false end.

Definition is_JSONDecodeError (e : exn) : bool :=
  match e with JSONDecodeError => true | _ => false end.

Definition is_OSError (e : exn) : bool :=
  match e with OSError => true | _ => false end.

(** The result of evaluating a Python expression. *)
Inductive outcome (A : Type) :=
  | Ret (a : A)
  | Raise (e : exn).
Arguments Ret {A} a.
Arguments Raise {A} e.

Definition obind {A B} (m : outcome A) (k : A → outcome B) : outcome B :=
  match m with
  | Ret a => k a
  | Raise e => Raise e
  end.

Declare Scope py_scope.
Delimit Scope py_scope with py.
Notation "'let!' x ':=' m 'in' k" := (obind m (fun x => k))
  (at level 10, x name, m at level 100, k at level 200) : py_scope.

(** ** Python strings *)

(** [str.isspace] on the code points below 256. *)
Definition isspace (c : ascii) : bool :=
  let n := N_of_ascii c in
  ((9 <=? n) && (n <=? 13) || (28 <=? n) && (n <=? 32)
   || (n =? 133) || (n =? 160))%N.

Fixpoint lstrip (s : string) : string :=
  match s with
  | String c rest => if isspace c then lstrip rest else s
  | EmptyString => EmptyString
  end.

Fixpoint rstrip (s : string) : string :=
  match s with
  | String c rest =>
      match rstrip rest with
      | EmptyString => if isspace c then EmptyString else String c EmptyString
      | rest' => String c rest'
      end
  | EmptyString => EmptyString
  end.

(** [s.strip()] *)
Definition strip (s : string) : string := rstrip (lstrip s).

(** Truth value of a string: [not s] is [negb (truthy s)]. *)
Definition truthy (s : string) : bool :=
  match s with EmptyString => false | _ => true end.

(** [c in s] for a one-character needle. *)
Fixpoint contains (c : ascii) (s : string) : bool :=
  match s with
  | String c' rest => Ascii.eqb c c' || contains c rest
  | EmptyString => false
  end.

(** ** Calendar dates ([datetime.date]) *)

Definition is_leap (y : Z) : bool :=
  (y mod 4 =? 0) && (negb (y mod 100 =? 0) || (y mod 400 =? 0)).

Definition days_in_month (y m : Z) : Z :=
  if m =? 2 then (if is_leap y then 29 else 28)
  else if (m =? 4) || (m =? 6) || (m =? 9) || (m =? 11) then 30
  else 31.

Definition valid_ymd (y m d : Z) : bool :=
  (1 <=? y) && (y <=? 9999) && (1 <=? m) && (m <=? 12)
  && (1 <=? d) && (d <=? days_in_month y m).

(** A [date] object: every inhabitant is a date of the calendar, as in
    Python, where the constructor refuses anything else. *)
Record date := mkdate {
  year : Z;
  month : Z;
  day : Z;
  date_wf : Is_true (valid_ymd year month day)
}.

(** [date(y, m, d)]; [None] stands for the [ValueError] of the constructor. *)
Definition make_date (y m d : Z) : option date :=
  match Is_true_dec (valid_ymd y m d) with
  | left H => Some (mkdate y m d H)
  | right _ => None
  end.

(** Comparison of dates is the comparison of (year, month, day). *)
Definition date_lt (a b : date) : bool :=
  (year a <? year b)
  || (year a =? year b)
     && ((month a <? month b) || (month a =? month b) && (day a <? day b)).

Definition date_le (a b : date) : bool :=
  (year a <? year b)
  || (year a =? year b)
     && ((month a <? month b) || (month a =? month b) && (day a <=? day b)).

(** Decimal digits. *)
Definition digit_char (n : Z) : ascii := ascii_of_N (Z.to_N (48 + n)).

Definition digit_val (c : ascii) : option Z :=
  let n := Z.of_N (N_of_ascii c) in
  if (48 <=? n) && (n <=? 57) then Some (n - 48) else None.

Definition two_digits (n : Z) : string :=
  String (digit_char (n / 10 mod 10)) (String (digit_char (n mod 10)) "").

Definition four_digits (n : Z) : string :=
  String (digit_char (n / 1000 mod 10))
    (String (digit_char (n / 100 mod 10)) (two_digits n)).

(** [d.isoformat()]: YYYY-MM-DD. *)
Definition isoformat (d : date) : string :=
  four_digits (year d) +:+ "-" +:+ two_digits (month d) +:+ "-"
  +:+ two_digits (day d).

(** The fields of a string of the shape dddd-dd-dd. *)
Definition parse_ymd (s : string) : option (Z * Z * Z) :=
  match s with
  | String y1 (String y2 (String y3 (String y4 (String s1
      (String m1 (String m2 (String s2 (String d1 (String d2 "")))))))))
    =>
      if Ascii.eqb s1 "-" && Ascii.eqb s2 "-" then
        a ← digit_val y1; b ← digit_val y2; c ← digit_val y3;
        d ← digit_val y4; e ← digit_val m1; f ← digit_val m2;
        g ← digit_val d1; h ← digit_val d2;
        Some (1000 * a + 100 * b + 10 * c + d, 10 * e + f, 10 * g + h)
      else None
  | _ => None
  end.

(** ** JSON values

    What [json.loads] can return: [None], booleans, integers, floats,
    strings, lists and dictionaries with string keys. *)
Inductive json :=
  | JNull
  | JBool (b : bool)
  | JInt (n : Z)
  | JFloat (x : spec_float)
  | JStr (s : string)
  | JList (items : list json)
  | JDict (fields : gmap string json).

Abbreviation dict := (gmap string json).

(** [data[key]] *)
Definition getitem (data : dict) (key : string) : outcome json :=
  match data !! key with
  | Some v => Ret v
  | None => Raise (KeyError key)
  end.

(** [type(v).__name__] *)
Definition type_name (v : json) : string :=
  match v with
  | JNull => "NoneType"
  | JBool _ => "bool"
  | JInt _ => "int"
  | JFloat _ => "float"
  | JStr _ => "str"
  | JList _ => "list"
  | JDict _ => "dict"
  end.

Definition is_list (v : json) : bool :=
  match v with JList _ => true | _ => false end.

Definition is_dict (v : json) : bool :=
  match v with JDict _ => true | _ => false end.

(** The parts of the Python runtime whose results the program passes on
    without looking at them, or that differ between interpreter versions.
    They are parameters of the development. *)
Class Interpreter := {
  (** [repr] of a float, a list or a dictionary *)
  repr : json → string;
  (** [int(s)] for a string [s]; [None] is its [ValueError] *)
  int_of_str : string → option Z;
  (** [date.fromisoformat(s)] for a string that does not have the shape
      dddd-dd-dd (newer interpreters accept further ISO 8601 spellings);
      [None] is its [ValueError] *)
  fromisoformat_other : string → option date
}.

(** [str(v)] *)
Definition py_str `{Interpreter} (v : json) : string :=
  match v with
  | JStr s => s
  | JNull => "None"
  | JBool b => if b then "True" else "False"
  | JInt n => pretty n
  | JFloat _ | JList _ | JDict _ => repr v
  end.

(** [int(x)] for a float [x]: truncation towards zero. *)
Definition int_of_float (x : spec_float) : outcome Z :=
  match x with
  | S754_zero _ => Ret 0
  | S754_finite s m e =>
      let a := Z.shiftl (Z.pos m) e in Ret (if s then - a else a)
  | S754_infinity _ => Raise OverflowError
  | S754_nan => Raise (ValueError "cannot convert float NaN to integer")
  end.

(** [int(v)] *)
Definition py_int `{Interpreter} (v : json) : outcome Z :=
  match v with
  | JInt n => Ret n
  | JBool b => Ret (if b then 1 else 0)
  | JFloat x => int_of_float x
  | JStr s =>
      match int_of_str s with
      | Some n => Ret n
      | None => Raise (ValueError "invalid literal for int() with base 10")
      end
  | JNull | JList _ | JDict _ => Raise TypeError
  end.

(** [date.fromisoformat(s)] *)
Definition fromisoformat `{Interpreter} (s : string) : outcome date :=
  let parsed :=
    match parse_ymd s with
    | Some (y, m, d) => make_date y m d
    | None => fromisoformat_other s
    end in
  match parsed with
  | Some d => Ret d
  | None => Raise (ValueError "Invalid isoformat string")
  end.

(** ** Entities *)

(** *** hotel.py *)
Module Hotel.

Record t := mk {
  hotel_id : string;
  name : string;
  rooms_total : Z
}.

Definition __post_init__ (self : t) : outcome unit :=
  if negb (truthy (strip (hotel_id self))) then
    Raise (ValueError "hotel_id cannot be empty.")
  else if negb (truthy (strip (name self))) then
    Raise (ValueError "name cannot be empty.")
  else if rooms_total self <=? 0 then
    Raise (ValueError "rooms_total must be a positive integer.")
  else Ret tt.

(** The constructor call [Hotel(hotel_id=..., name=..., rooms_total=...)]. *)
Definition new (hotel_id name : string) (rooms_total : Z) : outcome t :=
  let self := mk hotel_id name rooms_total in
  (let! _ := __post_init__ self in Ret self)%py.

Definition to_dict (self : t) : dict :=
  {[ "hotel_id" := JStr (hotel_id self);
     "name" := JStr (name self);
     "rooms_total" := JInt (rooms_total self) ]}.

Definition from_dict `{Interpreter} (data : dict) : outcome t :=
  (let! v1 := getitem data "hotel_id" in
   let! v2 := getitem data "name" in
   let! v3 := getitem data "rooms_total" in
   let! n := py_int v3 in
   new (py_str v1) (py_str v2) n)%py.

End Hotel.

(** *** customer.py *)
Module Customer.

Record t := mk {
  customer_id : string;
  name : string;
  email : string
}.

Definition __post_init__ (self : t) : outcome unit :=
  if negb (truthy (strip (customer_id self))) then
    Raise (ValueError "customer_id cannot be empty.")
  else if negb (truthy (strip (name self))) then
    Raise (ValueError "name cannot be empty.")
  else if negb (contains "@"%char (email self))
          || negb (truthy (strip (email self))) then
    Raise (ValueError
             "email must be a valid email-like string (must contain '@').")
  else Ret tt.

Definition new (customer_id name email : string) : outcome t :=
  let self := mk customer_id name email in
  (let! _ := __post_init__ self in Ret self)%py.

Definition to_dict (self : t) : dict :=
  {[ "customer_id" := JStr (customer_id self);
     "name" := JStr (name self);
     "email" := JStr (email self) ]}.

Definition from_dict `{Interpreter} (data : dict) : outcome t :=
  (let! v1 := getitem data "customer_id" in
   let! v2 := getitem data "name" in
   let! v3 := getitem data "email" in
   new (py_str v1) (py_str v2) (py_str v3))%py.

End Customer.

(** *** reservation.py *)
Module Reservation.

Record t := mk {
  reservation_id : string;
  hotel_id : string;
  customer_id : string;
  check_in : date;
  check_out : date;
  rooms : Z
}.

Definition __post_init__ (self : t) : outcome unit :=
  if negb (truthy (strip (reservation_id self))) then
    Raise (ValueError "reservation_id cannot be empty.")
  else if negb (truthy (strip (hotel_id self))) then
    Raise (ValueError "hotel_id cannot be empty.")
  else if negb (truthy (strip (customer_id self))) then
    Raise (ValueError "customer_id cannot be empty.")
  else if date_le (check_out self) (check_in self) then
    Raise (ValueError "check_out must be after check_in.")
  else if rooms self <=? 0 then
    Raise (ValueError "rooms must be a positive integer.")
  else Ret tt.

Definition new (reservation_id hotel_id customer_id : string)
    (check_in check_out : date) (rooms : Z) : outcome t :=
  let self :=
    mk reservation_id hotel_id customer_id check_in check_out rooms in
  (let! _ := __post_init__ self in Ret self)%py.

Definition to_dict (self : t) : dict :=
  {[ "reservation_id" := JStr (reservation_id self);
     "hotel_id" := JStr (hotel_id self);
     "customer_id" := JStr (customer_id self);
     "check_in" := JStr (isoformat (check_in self));
     "check_out" := JStr (isoformat (check_out self));
     "rooms" := JInt (rooms self) ]}.

Definition from_dict `{Interpreter} (data : dict) : outcome t :=
  (let! v1 := getitem data "reservation_id" in
   let! v2 := getitem data "hotel_id" in
   let! v3 := getitem data "customer_id" in
   let! v4 := getitem data "check_in" in
   let! d1 := fromisoformat (py_str v4) in
   let! v5 := getitem data "check_out" in
   let! d2 := fromisoformat (py_str v5) in
   let! v6 := getitem data "rooms" in
   let! n := py_int v6 in
   new (py_str v1) (py_str v2) (py_str v3) d1 d2 n)%py.

End Reservation.

(** ** Record store ([storage.py]) *)

Abbreviation path := string.

(** A decoded file content, as [str.strip] and [json.loads] see it: blank
    (empty once stripped), text that is not JSON, or the text of the JSON
    value [v].  Writing [json.dumps v] to a file and reading it again gives
    [JSON v]. *)
Inductive text :=
  | Blank
  | NotJSON
  | JSON (v : json).

(** A file is a sequence of bytes: either one that does not decode as UTF-8
    (for instance the single byte 0xFF), or the encoding of a text.  A leading
    byte-order mark is dropped by the "utf-8-sig" codec and is not part of
    the text. *)
Inductive file :=
  | NotUTF8
  | UTF8 (t : text).

Inductive entity_kind := KHotel | KCustomer | KReservation.

(** The lines that the program prints on stderr, one constructor for each
    message template of the sources, with the values interpolated in it. *)
Inductive diagnostic :=
  | EmptyFile (p : path)
  | InvalidFormat (p : path)
  | InvalidItemType (idx : nat) (p : path) (got : string)
  | InvalidJSON (p : path) (exc : exn)
  | CannotRead (p : path) (exc : exn)
  | CannotWrite (p : path) (exc : exn)
  | InvalidEntity (k : entity_kind) (idx : nat) (p : path) (exc : exn)
  | AlreadyExists (k : entity_kind) (id : string)
  | NotFound (k : entity_kind) (id : string)
  | Invalid (exc : exn)
  | NotEnoughRooms (hotel_id : string) (requested available : Z).

Record world := World {
  disk : gmap path file;
  stderr : list diagnostic
}.

(** Computations with effects on the world that may raise. *)
Definition M (A : Type) : Type := world → outcome A * world.

Definition ret {A} (a : A) : M A := λ w, (Ret a, w).

Definition raise {A} (e : exn) : M A := λ w, (Raise e, w).

Definition bind {A B} (m : M A) (k : A → M B) : M B :=
  λ w, match m w with
       | (Ret a, w') => k a w'
       | (Raise e, w') => (Raise e, w')
       end.

Definition lift {A} (o : outcome A) : M A := λ w, (o, w).

(** [try: body  except <classes>: handler]; the handler is [None] on the
    exceptions that no clause catches. *)
Definition try_except {A} (body : M A) (handler : exn → option (M A)) : M A :=
  λ w, match body w with
       | (Ret a, w') => (Ret a, w')
       | (Raise e, w') =>
           match handler e with
           | Some h => h w'
           | None => (Raise e, w')
           end
       end.

Notation "x <- m ;; k" := (bind m (fun x => k))
  (at level 100, m at next level, right associativity) : py_scope.
Notation "m ;; k" := (bind m (fun _ => k))
  (at level 100, right associativity) : py_scope.

#[local] Open Scope py_scope.

Definition _print_error (d : diagnostic) : M unit :=
  λ w, (Ret tt, World (disk w) (stderr w ++ [d])).

(** [path.exists()] *)
Definition exists_ (p : path) : M bool :=
  λ w, (Ret (bool_decide (is_Some (disk w !! p))), w).

(** [path.write_text(...)] with the file content [f] *)
Definition write_file (p : path) (f : file) : M unit :=
  λ w, (Ret tt, World (<[p := f]> (disk w)) (stderr w)).

(** [path.read_text(encoding="utf-8-sig")] *)
Definition read_text (p : path) : M text :=
  λ w, match disk w !! p with
       | None => (Raise OSError, w)
       | Some NotUTF8 => (Raise UnicodeDecodeError, w)
       | Some (UTF8 t) => (Ret t, w)
       end.

(** [src.replace(dst)]: rename, overwriting the destination *)
Definition replace (src dst : path) : M unit :=
  λ w, match disk w !! src with
       | None => (Raise OSError, w)
       | Some f => (Ret tt, World (<[dst := f]> (delete src (disk w))) (stderr w))
       end.

(** [path.unlink()] *)
Definition unlink (p : path) : M unit :=
  λ w, match disk w !! p with
       | None => (Raise OSError, w)
       | Some _ => (Ret tt, World (delete p (disk w)) (stderr w))
       end.

(** [json.loads(raw)] *)
Definition json_loads (raw : text) : outcome json :=
  match raw with
  | JSON v => Ret v
  | Blank | NotJSON => Raise JSONDecodeError
  end.

(** [json.dumps(data, ...)] of a list of dictionaries *)
Definition json_dumps (data : list dict) : text := JSON (JList (JDict <$> data)).

Definition empty_list_file : file := UTF8 (JSON (JList [])).

(** Creating the parent directory has no effect on the files of the model;
    the [except OSError] clause is not entered, since [exists_] and
    [write_file] do not raise. *)
Definition ensure_file_exists (p : path) : M unit :=
  present <- exists_ p;;
  if negb present then write_file p empty_list_file else ret tt.

(** The loop of [read_json_list] that keeps the dictionaries among the
    items, [cleaned] being the list built so far. *)
Fixpoint keep_dicts (p : path) (idx : nat) (data : list json)
    (cleaned : list dict) : M (list dict) :=
  match data with
  | [] => ret cleaned
  | item :: rest =>
      match item with
      | JDict d => keep_dicts p (S idx) rest (cleaned ++ [d])
      | _ =>
          _print_error (InvalidItemType idx p (type_name item));;
          keep_dicts p (S idx) rest cleaned
      end
  end.

Definition read_json_list (p : path) : M (list dict) :=
  ensure_file_exists p;;
  try_except
    (raw <- read_text p;;
     match raw with
     | Blank => _print_error (EmptyFile p);; ret []
     | _ =>
         data <- lift (json_loads raw);;
         match data with
         | JList items => keep_dicts p 0 items []
         | _ => _print_error (InvalidFormat p);; ret []
         end
     end)
    (λ exc,
       if is_JSONDecodeError exc then
         Some (_print_error (InvalidJSON p exc);; ret [])
       else if is_OSError exc then
         Some (_print_error (CannotRead p exc);; ret [])
       else None).

(** [path.with_suffix(path.suffix + ".tmp")] *)
Definition tmp_path_of (p : path) : path := p +:+ ".tmp".

(** [data] is a list by its type, so the [isinstance] guard of the source
    always passes. *)
Definition write_json_list (p : path) (data : list dict) : M unit :=
  ensure_file_exists p;;
  let tmp_path := tmp_path_of p in
  try_except
    (let payload := json_dumps data in
     write_file tmp_path (UTF8 payload);;
     replace tmp_path p)
    (λ exc,
       if is_OSError exc || is_TypeError exc then
         Some (_print_error (CannotWrite p exc);;
               present <- exists_ tmp_path;;
               if present then unlink tmp_path else ret tt)
       else None).

(** ** Services ([services.py]) *)

Definition _DATA_DIR : path := "data".
Definition _HOTELS_PATH : path := _DATA_DIR +:+ "/hotels.json".
Definition _CUSTOMERS_PATH : path := _DATA_DIR +:+ "/customers.json".
Definition _RESERVATIONS_PATH : path := _DATA_DIR +:+ "/reservations.json".

(** The loop shared by the three loaders:
    [for idx, item in enumerate(raw): try: acc.append(from_dict(item))
     except (KeyError, ValueError, TypeError) as exc: _print_error(...)]. *)
Fixpoint load_loop {A} (from_dict : dict → outcome A) (k : entity_kind)
    (p : path) (idx : nat) (raw : list dict) (acc : list A) : M (list A) :=
  match raw with
  | [] => ret acc
  | item :: rest =>
      acc' <- try_except
                (e <- lift (from_dict item);; ret (acc ++ [e]))
                (λ exc,
                   if is_KeyError exc || is_ValueError exc || is_TypeError exc
                   then Some (_print_error (InvalidEntity k idx p exc);; ret acc)
                   else None);;
      load_loop from_dict k p (S idx) rest acc'
  end.

Definition load_hotels `{Interpreter} : M (list Hotel.t) :=
  raw <- read_json_list _HOTELS_PATH;;
  load_loop Hotel.from_dict KHotel _HOTELS_PATH 0 raw [].

Definition save_hotels (hotels : list Hotel.t) : M unit :=
  let payload := Hotel.to_dict <$> hotels in
  write_json_list _HOTELS_PATH payload.

Definition load_customers `{Interpreter} : M (list Customer.t) :=
  raw <- read_json_list _CUSTOMERS_PATH;;
  load_loop Customer.from_dict KCustomer _CUSTOMERS_PATH 0 raw [].

Definition save_customers (customers : list Customer.t) : M unit :=
  let payload := Customer.to_dict <$> customers in
  write_json_list _CUSTOMERS_PATH payload.

Definition load_reservations `{Interpreter} : M (list Reservation.t) :=
  raw <- read_json_list _RESERVATIONS_PATH;;
  load_loop Reservation.from_dict KReservation _RESERVATIONS_PATH 0 raw [].

Definition save_reservations (reservations : list Reservation.t) : M unit :=
  let payload := Reservation.to_dict <$> reservations in
  write_json_list _RESERVATIONS_PATH payload.

(** *** Generic find helpers *)

Definition _find_hotel (hotels : list Hotel.t) (hotel_id : string)
    : option Hotel.t :=
  List.find (λ h, String.eqb (Hotel.hotel_id h) hotel_id) hotels.

Definition _find_customer (customers : list Customer.t) (customer_id : string)
    : option Customer.t :=
  List.find (λ c, String.eqb (Customer.customer_id c) customer_id) customers.

Definition _find_reservation (reservations : list Reservation.t)
    (reservation_id : string) : option Reservation.t :=
  List.find (λ r, String.eqb (Reservation.reservation_id r) reservation_id)
    reservations.

(** [try: value = <constructor call>  except ValueError as exc:
     _print_error(str(exc)); return False], followed by [body value]. *)
Definition construct_or_fail {A} (o : outcome A) (body : A → M bool) : M bool :=
  match o with
  | Ret a => body a
  | Raise exc =>
      if is_ValueError exc then _print_error (Invalid exc);; ret false
      else raise exc
  end.

(** *** CRUD: hotels *)

Definition create_hotel `{Interpreter} (hotel_id name : string)
    (rooms_total : Z) : M bool :=
  hotels <- load_hotels;;
  if bool_decide (is_Some (_find_hotel hotels hotel_id)) then
    _print_error (AlreadyExists KHotel hotel_id);; ret false
  else
    construct_or_fail (Hotel.new hotel_id name rooms_total) (λ hotel,
      save_hotels (hotels ++ [hotel]);;
      ret true).

Definition delete_hotel `{Interpreter} (hotel_id : string) : M bool :=
  hotels <- load_hotels;;
  let before := length hotels in
  let hotels :=
    List.filter (λ h, negb (String.eqb (Hotel.hotel_id h) hotel_id)) hotels in
  if Nat.eqb (length hotels) before then
    _print_error (NotFound KHotel hotel_id);; ret false
  else
    save_hotels hotels;; ret true.

Definition display_hotel `{Interpreter} (hotel_id : string)
    : M (option dict) :=
  hotels <- load_hotels;;
  match _find_hotel hotels hotel_id with
  | None => _print_error (NotFound KHotel hotel_id);; ret None
  | Some hotel => ret (Some (Hotel.to_dict hotel))
  end.

Definition modify_hotel `{Interpreter} (hotel_id : string)
    (name : option string) (rooms_total : option Z) : M bool :=
  hotels <- load_hotels;;
  match _find_hotel hotels hotel_id with
  | None => _print_error (NotFound KHotel hotel_id);; ret false
  | Some hotel =>
      let new_name := default (Hotel.name hotel) name in
      let new_rooms := default (Hotel.rooms_total hotel) rooms_total in
      construct_or_fail (Hotel.new (Hotel.hotel_id hotel) new_name new_rooms)
        (λ updated,
           let hotels :=
             List.map (λ h, if String.eqb (Hotel.hotel_id h) hotel_id
                            then updated else h) hotels in
           save_hotels hotels;;
           ret true)
  end.

(** *** CRUD: customers *)

Definition create_customer `{Interpreter} (customer_id name email : string)
    : M bool :=
  customers <- load_customers;;
  if bool_decide (is_Some (_find_customer customers customer_id)) then
    _print_error (AlreadyExists KCustomer customer_id);; ret false
  else
    construct_or_fail (Customer.new customer_id name email) (λ customer,
      save_customers (customers ++ [customer]);;
      ret true).

Definition delete_customer `{Interpreter} (customer_id : string) : M bool :=
  customers <- load_customers;;
  let before := length customers in
  let customers :=
    List.filter (λ c, negb (String.eqb (Customer.customer_id c) customer_id))
      customers in
  if Nat.eqb (length customers) before then
    _print_error (NotFound KCustomer customer_id);; ret false
  else
    save_customers customers;; ret true.

Definition display_customer `{Interpreter} (customer_id : string)
    : M (option dict) :=
  customers <- load_customers;;
  match _find_customer customers customer_id with
  | None => _print_error (NotFound KCustomer customer_id);; ret None
  | Some customer => ret (Some (Customer.to_dict customer))
  end.

Definition modify_customer `{Interpreter} (customer_id : string)
    (name email : option string) : M bool :=
  customers <- load_customers;;
  match _find_customer customers customer_id with
  | None => _print_error (NotFound KCustomer customer_id);; ret false
  | Some customer =>
      let new_name := default (Customer.name customer) name in
      let new_email := default (Customer.email customer) email in
      construct_or_fail
        (Customer.new (Customer.customer_id customer) new_name new_email)
        (λ updated,
           let customers :=
             List.map (λ c, if String.eqb (Customer.customer_id c) customer_id
                            then updated else c) customers in
           save_customers customers;;
           ret true)
  end.

(** *** Reservations logic *)

Definition _overlaps (a_start a_end b_start b_end : date) : bool :=
  date_lt a_start b_end && date_lt b_start a_end.

Definition _rooms_booked_for_hotel (reservations : list Reservation.t)
    (hotel_id : string) (check_in check_out : date) : Z :=
  fold_left
    (λ total res,
       if negb (String.eqb (Reservation.hotel_id res) hotel_id) then total
       else if _overlaps (Reservation.check_in res) (Reservation.check_out res)
                 check_in check_out
            then total + Reservation.rooms res
            else total)
    reservations 0.

Definition create_reservation `{Interpreter}
    (reservation_id hotel_id customer_id : string)
    (check_in check_out : date) (rooms : Z) : M bool :=
  hotels <- load_hotels;;
  customers <- load_customers;;
  reservations <- load_reservations;;
  if bool_decide (is_Some (_find_reservation reservations reservation_id)) then
    _print_error (AlreadyExists KReservation reservation_id);; ret false
  else
    match _find_hotel hotels hotel_id with
    | None => _print_error (NotFound KHotel hotel_id);; ret false
    | Some hotel =>
        match _find_customer customers customer_id with
        | None => _print_error (NotFound KCustomer customer_id);; ret false
        | Some customer =>
            construct_or_fail
              (Reservation.new reservation_id hotel_id customer_id
                 check_in check_out rooms)
              (λ reservation,
                 let already_booked :=
                   _rooms_booked_for_hotel reservations hotel_id
                     check_in check_out in
                 let available := Hotel.rooms_total hotel - already_booked in
                 if available <? Reservation.rooms reservation then
                   _print_error
                     (NotEnoughRooms hotel_id (Reservation.rooms reservation)
                        available);;
                   ret false
                 else
                   save_reservations (reservations ++ [reservation]);;
                   ret true)
        end
    end.

Definition cancel_reservation `{Interpreter} (reservation_id : string)
    : M bool :=
  reservations <- load_reservations;;
  let before := length reservations in
  let reservations :=
    List.filter
      (λ r, negb (String.eqb (Reservation.reservation_id r) reservation_id))
      reservations in
  if Nat.eqb (length reservations) before then
    _print_error (NotFound KReservation reservation_id);; ret false
  else
    save_reservations reservations;; ret true.

(** The service operations that change a collection, as calls. *)
Inductive operation :=
  | CreateHotel (hotel_id name : string) (rooms_total : Z)
  | DeleteHotel (hotel_id : string)
  | ModifyHotel (hotel_id : string) (name : option string)
      (rooms_total : option Z)
  | CreateCustomer (customer_id name email : string)
  | DeleteCustomer (customer_id : string)
  | ModifyCustomer (customer_id : string) (name email : option string)
  | CreateReservation (reservation_id hotel_id customer_id : string)
      (check_in check_out : date) (rooms : Z)
  | CancelReservation (reservation_id : string).

Definition call `{Interpreter} (op : operation) : M bool :=
  match op with
  | CreateHotel i n r => create_hotel i n r
  | DeleteHotel i => delete_hotel i
  | ModifyHotel i n r => modify_hotel i n r
  | CreateCustomer i n e => create_customer i n e
  | DeleteCustomer i => delete_customer i
  | ModifyCustomer i n e => modify_customer i n e
  | CreateReservation i h c ci co r => create_reservation i h c ci co r
  | CancelReservation i => cancel_reservation i
  end.

(** The kind of entity that an operation is about, and the file of each
    collection. *)
Definition kind_of (op : operation) : entity_kind :=
  match op with
  | CreateHotel _ _ _ | DeleteHotel _ | ModifyHotel _ _ _ => KHotel
  | CreateCustomer _ _ _ | DeleteCustomer _ | ModifyCustomer _ _ _ => KCustomer
  | CreateReservation _ _ _ _ _ _ | CancelReservation _ => KReservation
  end.

Definition store_path (k : entity_kind) : path :=
  match k with
  | KHotel => _HOTELS_PATH
  | KCustomer => _CUSTOMERS_PATH
  | KReservation => _RESERVATIONS_PATH
  end.

(** ** Vocabulary of the specification *)

(** [a] is an earlier calendar day than [b]. *)
Definition earlier (a b : date) : Prop :=
  year a < year b
  ∨ (year a = year b
     ∧ (month a < month b ∨ (month a = month b ∧ day a < day b))).

(** A numbering of the dates that grows with the calendar. *)
Definition date_rank (d : date) : Z := (year d * 16 + month d) * 32 + day d.

(** The dictionaries among the items of a list, in order. *)
Definition dicts_of (items : list json) : list dict :=
  omap (λ v, match v with JDict d => Some d | _ => None end) items.

(** The diagnostics for the items that are not dictionaries, the first item
    having index [idx]. *)
Fixpoint skipped (p : path) (idx : nat) (items : list json) : list diagnostic :=
  match items with
  | [] => []
  | JDict _ :: rest => skipped p (S idx) rest
  | item :: rest =>
      InvalidItemType idx p (type_name item) :: skipped p (S idx) rest
  end.

(** What the record store makes of a file: the sequence it loads, or the
    exception that escapes, and the diagnostics it prints. *)
Definition read_view (p : path) (f : file)
    : outcome (list dict) * list diagnostic :=
  match f with
  | NotUTF8 => (Raise UnicodeDecodeError, [])
  | UTF8 Blank => (Ret [], [EmptyFile p])
  | UTF8 NotJSON => (Ret [], [InvalidJSON p JSONDecodeError])
  | UTF8 (JSON (JList items)) => (Ret (dicts_of items), skipped p 0 items)
  | UTF8 (JSON _) => (Ret [], [InvalidFormat p])
  end.

(** The disk once a missing file at [p] has been created as an empty list. *)
Definition ensured (p : path) (dk : gmap path file) : gmap path file :=
  match dk !! p with
  | None => <[p := empty_list_file]> dk
  | Some _ => dk
  end.

(** The file at [p] was not written between [w] and [w']: it is the same
    file, or it did not exist and now holds the empty list. *)
Definition same_file (p : path) (w w' : world) : Prop :=
  disk w' !! p = disk w !! p
  ∨ (disk w !! p = None ∧ disk w' !! p = Some empty_list_file).

(** The collection persisted at [p], as the record store loads it. *)
Definition stored (p : path) (w : world) : outcome (list dict) :=
  fst (read_json_list p w).

(** The common shape of [load_hotels], [load_customers] and
    [load_reservations]. *)
Definition load_collection {A} (from_dict : dict → outcome A)
    (k : entity_kind) (p : path) : M (list A) :=
  raw <- read_json_list p;;
  load_loop from_dict k p 0 raw [].

(** The exceptions that the loaders catch. *)
Definition skippable (exc : exn) : bool :=
  is_KeyError exc || is_ValueError exc || is_TypeError exc.

(** What a loader makes of raw records: the entities it builds (or the
    exception that escapes) and the diagnostics it prints. *)
Fixpoint load_view {A} (from_dict : dict → outcome A) (k : entity_kind)
    (p : path) (idx : nat) (raw : list dict) (acc : list A)
    : outcome (list A) * list diagnostic :=
  match raw with
  | [] => (Ret acc, [])
  | item :: rest =>
      match from_dict item with
      | Ret e => load_view from_dict k p (S idx) rest (acc ++ [e])
      | Raise exc =>
          if skippable exc then
            let v := load_view from_dict k p (S idx) rest acc in
            (fst v, InvalidEntity k idx p exc :: snd v)
          else (Raise exc, [])
      end
  end.

(** No file was written between [w] and [w']. *)
Definition untouched (w w' : world) : Prop := ∀ p, same_file p w w'.

(** *** Entity validators *)

Inductive entity :=
  | AHotel (h : Hotel.t)
  | ACustomer (c : Customer.t)
  | AReservation (r : Reservation.t).

(** [construct(fields)] and [to_fields(entity)] of the specification. *)
Definition construct `{Interpreter} (k : entity_kind) (fields : dict)
    : outcome entity :=
  match k with
  | KHotel => (let! h := Hotel.from_dict fields in Ret (AHotel h))%py
  | KCustomer => (let! c := Customer.from_dict fields in Ret (ACustomer c))%py
  | KReservation =>
      (let! r := Reservation.from_dict fields in Ret (AReservation r))%py
  end.

Definition to_fields (e : entity) : dict :=
  match e with
  | AHotel h => Hotel.to_dict h
  | ACustomer c => Customer.to_dict c
  | AReservation r => Reservation.to_dict r
  end.

(** Fields maps of the right shape and types: exactly the keys of the
    entity, strings and integers where the entity has them, and dates as
    strings of the form YYYY-MM-DD. *)
Inductive well_shaped : entity_kind → dict → Prop :=
  | shaped_hotel (i n : string) (r : Z) :
      well_shaped KHotel
        {[ "hotel_id" := JStr i; "name" := JStr n; "rooms_total" := JInt r ]}
  | shaped_customer (i n e : string) :
      well_shaped KCustomer
        {[ "customer_id" := JStr i; "name" := JStr n; "email" := JStr e ]}
  | shaped_reservation (i h c ci co : string) (n : Z) :
      is_Some (parse_ymd ci) → is_Some (parse_ymd co) →
      well_shaped KReservation
        {[ "reservation_id" := JStr i; "hotel_id" := JStr h;
           "customer_id" := JStr c; "check_in" := JStr ci;
           "check_out" := JStr co; "rooms" := JInt n ]}.

(** A stored record is a valid entity: it passes construction, and it is
    the record that the entity serializes to. *)
Definition valid_record `{Interpreter} (k : entity_kind) (r : dict) : Prop :=
  ∃ e, construct k r = Ret e ∧ to_fields e = r.

(** The collection at [p] was rewritten as [records] between [w] and [w'],
    and no other file was written (the temporary file of the write is gone). *)
Definition rewritten (p : path) (records : list dict) (w w' : world) : Prop :=
  disk w' !! p = Some (UTF8 (json_dumps records))
  ∧ disk w' !! tmp_path_of p = None
  ∧ ∀ q, q ≠ p → q ≠ tmp_path_of p → same_file q w w'.

(** *** Availability *)

(** The sum of a list of integers. *)
Definition total (l : list Z) : Z := foldr Z.add 0 l.

(** [rooms_committed] of the specification: the sum of [rooms] over the
    reservations of the hotel whose interval overlaps the range. *)
Definition rooms_committed (reservations : list Reservation.t)
    (hotel_id : string) (check_in check_out : date) : Z :=
  total
    (Reservation.rooms <$>
       List.filter
         (λ r, String.eqb (Reservation.hotel_id r) hotel_id
               && _overlaps (Reservation.check_in r) (Reservation.check_out r)
                    check_in check_out)
         reservations).

(** The instant [t] lies in the interval [check_in, check_out) of [r]. *)
Definition active (r : Reservation.t) (t : date) : bool :=
  date_le (Reservation.check_in r) t && date_lt t (Reservation.check_out r).

(** The rooms of the hotel taken at the instant [t]. *)
Definition occupancy (reservations : list Reservation.t) (hotel_id : string)
    (t : date) : Z :=
  total
    (Reservation.rooms <$>
       List.filter
         (λ r, String.eqb (Reservation.hotel_id r) hotel_id && active r t)
         reservations).

(** *** Admission of a reservation *)

Inductive failure :=
  | DuplicateId
  | NotFoundHotel
  | NotFoundCustomer
  | InvalidEntityFailure
  | InsufficientCapacity (requested available : Z).

(** An id that validation refuses: empty once stripped. *)
Definition blank (s : string) : bool := negb (truthy (strip s)).

(** The failure conditions of [create_reservation] in the order of the
    specification (steps 2 to 6), on the loaded collections. *)
Definition admission (hotels : list Hotel.t) (customers : list Customer.t)
    (reservations : list Reservation.t)
    (reservation_id hotel_id customer_id : string)
    (check_in check_out : date) (rooms : Z) : option failure :=
  if existsb (λ r, String.eqb (Reservation.reservation_id r) reservation_id)
       reservations
  then Some DuplicateId
  else
    match List.find (λ h, String.eqb (Hotel.hotel_id h) hotel_id) hotels with
    | None => Some NotFoundHotel
    | Some hotel =>
        if negb (existsb (λ c, String.eqb (Customer.customer_id c) customer_id)
                   customers)
        then Some NotFoundCustomer
        else if blank reservation_id || blank hotel_id || blank customer_id
                || date_le check_out check_in || (rooms <=? 0)
        then Some InvalidEntityFailure
        else
          let available :=
            Hotel.rooms_total hotel
            - rooms_committed reservations hotel_id check_in check_out in
          if available <? rooms
          then Some (InsufficientCapacity rooms available)
          else None
    end.

(** The diagnostic that reports a failure of [create_reservation]. *)
Definition reports (reservation_id hotel_id customer_id : string)
    (f : failure) (d : diagnostic) : Prop :=
  match f with
  | DuplicateId => d = AlreadyExists KReservation reservation_id
  | NotFoundHotel => d = NotFound KHotel hotel_id
  | NotFoundCustomer => d = NotFound KCustomer customer_id
  | InvalidEntityFailure => ∃ msg, d = Invalid (ValueError msg)
  | InsufficientCapacity requested available =>
      d = NotEnoughRooms hotel_id requested available
  end.

(** The three collections as [create_reservation] loads them, in its order. *)
Definition loaded `{Interpreter} (w : world) (hotels : list Hotel.t)
    (customers : list Customer.t) (reservations : list Reservation.t)
    (w3 : world) : Prop :=
  ∃ w1 w2,
    load_hotels w = (Ret hotels, w1)
    ∧ load_customers w1 = (Ret customers, w2)
    ∧ load_reservations w2 = (Ret reservations, w3).

(** Dates of the examples. *)
Definition d_2026_03_01 : date := mkdate 2026 3 1 I.
Definition d_2026_03_02 : date := mkdate 2026 3 2 I.
Definition d_2026_03_04 : date := mkdate 2026 3 4 I.
Definition d_2026_03_05 : date := mkdate 2026 3 5 I.
Definition d_2026_03_06 : date := mkdate 2026 3 6 I.
Definition d_2026_03_08 : date := mkdate 2026 3 8 I.

(** An interpreter for the examples: it refuses the strings that the model
    leaves to the interpreter. *)
Definition strict_interpreter : Interpreter :=
  {| repr := λ _, "";
     int_of_str := λ _, None;
     fromisoformat_other := λ _, None |}.

(** The world after a diagnostic was printed, and after the collection at
    [p] was written as [records]. *)
Definition after_print (d : diagnostic) (w : world) : world :=
  World (disk w) (stderr w ++ [d]).

Definition after_write (p : path) (records : list dict) (w : world) : world :=
  World (<[p := UTF8 (json_dumps records)]> (delete (tmp_path_of p) (disk w)))
    (stderr w).

(** Worlds of the examples: hotel H1 with [rooms_total] rooms, customer C1
    and the given reservations, nothing printed yet. *)
Definition hotel_H1 (rooms_total : Z) : Hotel.t :=
  Hotel.mk "H1" "Hotel Uno" rooms_total.

Definition customer_C1 : Customer.t :=
  Customer.mk "C1" "Edgar" "edgar@example.com".

Definition reservation_R1 : Reservation.t :=
  Reservation.mk "R1" "H1" "C1" d_2026_03_01 d_2026_03_05 3.

Definition example_world (rooms_total : Z) (reservations : list Reservation.t)
    : world :=
  World
    {[ _HOTELS_PATH := UTF8 (json_dumps [Hotel.to_dict (hotel_H1 rooms_total)]);
       _CUSTOMERS_PATH := UTF8 (json_dumps [Customer.to_dict customer_C1]);
       _RESERVATIONS_PATH :=
         UTF8 (json_dumps (Reservation.to_dict <$> reservations)) ]}
    [].

(** What a call on the collection of kind [k] may do to the world [w]: on
    success the collection is rewritten with valid records only; in every
    other case (failure or exception) no file is written. *)
Definition transactional `{Interpreter} (k : entity_kind) (w : world)
    (r : outcome bool * world) : Prop :=
  match fst r with
  | Ret true =>
      ∃ records,
        rewritten (store_path k) records w (snd r)
        ∧ Forall (valid_record k) records
  | _ => untouched w (snd r)
  end.

(** A stored reservation record that fails validation: its check-out is
    not after its check-in. *)
Definition stale_record : dict :=
  {[ "reservation_id" := JStr "R0"; "hotel_id" := JStr "H1";
     "customer_id" := JStr "C1"; "check_in" := JStr "2026-03-05";
     "check_out" := JStr "2026-03-05"; "rooms" := JInt 1 ]}.

Definition world_with_stale_record : world :=
  World
    {[ _HOTELS_PATH := UTF8 (json_dumps [Hotel.to_dict (hotel_H1 10)]);
       _CUSTOMERS_PATH := UTF8 (json_dumps [Customer.to_dict customer_C1]);
       _RESERVATIONS_PATH :=
         UTF8 (json_dumps [Reservation.to_dict reservation_R1; stale_record]) ]}
    [].

(** *** Vocabulary for the loaders and the CRUD operations *)

(** The entities that a loader keeps: the records from which an entity is
    constructed, in the order of the file. *)
Definition accepted {A} (from_dict : dict → outcome A) (raw : list dict)
    : list A :=
  omap (λ item, match from_dict item with
                | Ret e => Some e
                | Raise _ => None
                end) raw.

(** The kind of an entity. *)
Definition kind_of_entity (e : entity) : entity_kind :=
  match e with
  | AHotel _ => KHotel
  | ACustomer _ => KCustomer
  | AReservation _ => KReservation
  end.

(** The validation of an entity that already exists. *)
Definition validate (e : entity) : outcome unit :=
  match e with
  | AHotel h => Hotel.__post_init__ h
  | ACustomer c => Customer.__post_init__ c
  | AReservation r => Reservation.__post_init__ r
  end.


(** The keys that the constructor of each kind reads. *)
Definition keys_of (k : entity_kind) : list string :=
  match k with
  | KHotel => ["hotel_id"; "name"; "rooms_total"]
  | KCustomer => ["customer_id"; "name"; "email"]
  | KReservation =>
      ["reservation_id"; "hotel_id"; "customer_id"; "check_in"; "check_out";
       "rooms"]
  end.

(** The invariants of the data model on an entity. *)
Definition well_formed (e : entity) : Prop :=
  match e with
  | AHotel h =>
      blank (Hotel.hotel_id h) = false ∧ blank (Hotel.name h) = false
      ∧ 0 < Hotel.rooms_total h
  | ACustomer c =>
      blank (Customer.customer_id c) = false ∧ blank (Customer.name c) = false
      ∧ contains "@"%char (Customer.email c) = true
  | AReservation r =>
      blank (Reservation.reservation_id r) = false
      ∧ blank (Reservation.hotel_id r) = false
      ∧ blank (Reservation.customer_id r) = false
      ∧ earlier (Reservation.check_in r) (Reservation.check_out r)
      ∧ 0 < Reservation.rooms r
  end.

(** * Properties *)

(** ** Dates *)

Lemma date_bounds (d : date) :
  1 ≤ year d ≤ 9999 ∧ 1 ≤ month d ≤ 12 ∧ 1 ≤ day d ≤ 31.
Proof.
  destruct d as [y m d H]; simpl.
  apply Is_true_true in H. unfold valid_ymd in H.
  rewrite !andb_true_iff in H. rewrite !Z.leb_le in H.
  assert (days_in_month y m ≤ 31).
  { unfold days_in_month. repeat case_match; lia. }
  lia.
Qed.

Lemma date_eq (a b : date) :
  year a = year b → month a = month b → day a = day b → a = b.
Proof.
  destruct a as [y m d H], b as [y' m' d' H']; simpl.
  intros -> -> ->. f_equal. apply Is_true_pi.
Qed.

Lemma date_lt_earlier (a b : date) : date_lt a b = true ↔ earlier a b.
Proof.
  unfold date_lt, earlier.
  rewrite !orb_true_iff, !andb_true_iff, !orb_true_iff, !andb_true_iff.
  rewrite !Z.ltb_lt, !Z.eqb_eq. tauto.
Qed.

Lemma date_lt_rank (a b : date) : date_lt a b = (date_rank a <? date_rank b).
Proof.
  pose proof (date_bounds a). pose proof (date_bounds b).
  apply eq_true_iff_eq. rewrite date_lt_earlier, Z.ltb_lt.
  unfold earlier, date_rank. lia.
Qed.

Lemma date_le_rank (a b : date) : date_le a b = (date_rank a <=? date_rank b).
Proof.
  pose proof (date_bounds a). pose proof (date_bounds b).
  apply eq_true_iff_eq. unfold date_le.
  rewrite !orb_true_iff, !andb_true_iff, !orb_true_iff, !andb_true_iff.
  rewrite !Z.ltb_lt, !Z.eqb_eq, !Z.leb_le.
  unfold date_rank. lia.
Qed.

Lemma digit_val_char (n : Z) : 0 ≤ n ≤ 9 → digit_val (digit_char n) = Some n.
Proof.
  intros Hn.
  assert (n = 0 ∨ n = 1 ∨ n = 2 ∨ n = 3 ∨ n = 4 ∨ n = 5 ∨ n = 6 ∨ n = 7
          ∨ n = 8 ∨ n = 9) as Hcases by lia.
  repeat (destruct Hcases as [-> | Hcases]; [reflexivity |]).
  subst n. reflexivity.
Qed.

Lemma digit_char_val (c : ascii) (n : Z) :
  digit_val c = Some n → digit_char n = c ∧ 0 ≤ n ≤ 9.
Proof.
  unfold digit_val, digit_char.
  destruct (_ && _) eqn:Hrange; [| discriminate].
  intros [= <-]. apply andb_true_iff in Hrange as [H1 H2].
  apply Z.leb_le in H1, H2. split; [| lia].
  replace (48 + (Z.of_N (N_of_ascii c) - 48)) with (Z.of_N (N_of_ascii c))
    by lia.
  rewrite N2Z.id. apply ascii_N_embedding.
Qed.

Lemma two_digits_spec (e f : Z) :
  0 ≤ e ≤ 9 → 0 ≤ f ≤ 9 →
  two_digits (10 * e + f) = String (digit_char e) (String (digit_char f) "").
Proof.
  intros He Hf. unfold two_digits.
  replace ((10 * e + f) / 10 mod 10) with e
    by (Z.div_mod_to_equations; lia).
  replace ((10 * e + f) mod 10) with f by (Z.div_mod_to_equations; lia).
  reflexivity.
Qed.

Lemma four_digits_spec (a b c d : Z) :
  0 ≤ a ≤ 9 → 0 ≤ b ≤ 9 → 0 ≤ c ≤ 9 → 0 ≤ d ≤ 9 →
  four_digits (1000 * a + 100 * b + 10 * c + d)
  = String (digit_char a) (String (digit_char b)
      (String (digit_char c) (String (digit_char d) ""))).
Proof.
  intros Ha Hb Hc Hd. unfold four_digits, two_digits.
  set (y := 1000 * a + 100 * b + 10 * c + d).
  replace (y / 1000 mod 10) with a by (subst y; Z.div_mod_to_equations; lia).
  replace (y / 100 mod 10) with b by (subst y; Z.div_mod_to_equations; lia).
  replace (y / 10 mod 10) with c by (subst y; Z.div_mod_to_equations; lia).
  replace (y mod 10) with d by (subst y; Z.div_mod_to_equations; lia).
  reflexivity.
Qed.

(** Formatting what was parsed gives the string back. *)
Lemma format_parse_ymd (s : string) (y m d : Z) :
  parse_ymd s = Some (y, m, d) →
  four_digits y +:+ "-" +:+ two_digits m +:+ "-" +:+ two_digits d = s.
Proof.
  unfold parse_ymd.
  do 10 (destruct s as [| ? s]; [discriminate |]).
  destruct s; [| discriminate].
  destruct (Ascii.eqb _ _ && Ascii.eqb _ _) eqn:Hsep; [| discriminate].
  apply andb_true_iff in Hsep as [Hs1 Hs2].
  apply Ascii.eqb_eq in Hs1, Hs2. subst.
  repeat match goal with
         | |- context [digit_val ?c] =>
             let E := fresh "E" in
             destruct (digit_val c) eqn:E; simpl; [| discriminate]
         end.
  intros [= <- <- <-].
  repeat match goal with
         | E : digit_val _ = Some _ |- _ =>
             apply digit_char_val in E as [<- ?]
         end.
  rewrite four_digits_spec, !two_digits_spec by assumption.
  reflexivity.
Qed.

Lemma iso_shape (a b c d e f g h : ascii) :
  String a (String b (String c (String d ""))) +:+ "-"
  +:+ String e (String f "") +:+ "-" +:+ String g (String h "")
  = String a (String b (String c (String d (String "-"
      (String e (String f (String "-" (String g (String h ""))))))))).
Proof. reflexivity. Qed.

(** Parsing what was formatted gives the fields back. *)
Lemma parse_format_ymd (y m d : Z) :
  0 ≤ y ≤ 9999 → 0 ≤ m ≤ 99 → 0 ≤ d ≤ 99 →
  parse_ymd (four_digits y +:+ "-" +:+ two_digits m +:+ "-" +:+ two_digits d)
  = Some (y, m, d).
Proof.
  intros Hy Hm Hd. unfold four_digits, two_digits. rewrite iso_shape.
  unfold parse_ymd.
  replace (Ascii.eqb "-" "-") with true by reflexivity. cbn [andb].
  rewrite !digit_val_char by (Z.div_mod_to_equations; lia).
  cbn [mbind option_bind]. f_equal. f_equal; [f_equal |].
  all: Z.div_mod_to_equations; lia.
Qed.

Lemma parse_isoformat (d : date) :
  parse_ymd (isoformat d) = Some (year d, month d, day d).
Proof.
  pose proof (date_bounds d). unfold isoformat.
  apply parse_format_ymd; lia.
Qed.

Lemma make_date_wf (d : date) : make_date (year d) (month d) (day d) = Some d.
Proof.
  unfold make_date. destruct (Is_true_dec _) as [H | H].
  - f_equal. apply date_eq; reflexivity.
  - destruct d; simpl in *. contradiction.
Qed.

Lemma make_date_fields (y m d : Z) (x : date) :
  make_date y m d = Some x → year x = y ∧ month x = m ∧ day x = d.
Proof.
  unfold make_date. destruct (Is_true_dec _); [| discriminate].
  intros [= <-]. auto.
Qed.

Lemma fromisoformat_isoformat `{Interpreter} (d : date) :
  fromisoformat (isoformat d) = Ret d.
Proof.
  unfold fromisoformat. rewrite parse_isoformat, make_date_wf. reflexivity.
Qed.

Lemma isoformat_fromisoformat `{Interpreter} (s : string) (d : date) :
  is_Some (parse_ymd s) → fromisoformat s = Ret d → isoformat d = s.
Proof.
  intros [[[y m] dd] Hp]. unfold fromisoformat. rewrite Hp.
  destruct (make_date y m dd) as [x |] eqn:Hx; [| discriminate].
  intros [= <-]. apply make_date_fields in Hx as (Hy & Hm & Hd).
  unfold isoformat. rewrite Hy, Hm, Hd. by apply format_parse_ymd.
Qed.

(** ** Record store *)

Lemma string_length_append (s t : string) :
  String.length (s +:+ t) = (String.length s + String.length t)%nat.
Proof. induction s as [| c s IH]; simpl; [done | by rewrite IH]. Qed.

Lemma tmp_path_ne (p : path) : tmp_path_of p ≠ p.
Proof.
  unfold tmp_path_of. intros Heq.
  apply (f_equal String.length) in Heq.
  rewrite string_length_append in Heq. simpl in Heq. lia.
Qed.

Lemma keep_dicts_spec (p : path) (data : list json) :
  ∀ idx cleaned w,
    keep_dicts p idx data cleaned w
    = (Ret (cleaned ++ dicts_of data),
       World (disk w) (stderr w ++ skipped p idx data)).
Proof.
  induction data as [| item rest IH]; intros idx cleaned w.
  - cbn. rewrite !app_nil_r. by destruct w.
  - destruct item; cbn [keep_dicts skipped dicts_of omap list_omap];
      unfold bind, _print_error; rewrite ?IH; cbn [disk stderr];
      rewrite <- ?app_assoc; reflexivity.
Qed.

Lemma ensure_file_exists_spec (p : path) (w : world) :
  ensure_file_exists p w = (Ret tt, World (ensured p (disk w)) (stderr w)).
Proof.
  unfold ensure_file_exists, bind, exists_, ensured, write_file, ret.
  destruct (disk w !! p) eqn:Hp.
  - rewrite bool_decide_eq_true_2 by eauto. by destruct w.
  - rewrite bool_decide_eq_false_2 by (intros [? ?]; discriminate).
    reflexivity.
Qed.

Lemma ensured_lookup (p : path) (dk : gmap path file) :
  ensured p dk !! p = Some (default empty_list_file (dk !! p)).
Proof.
  unfold ensured. destruct (dk !! p) eqn:Hp; simpl.
  - exact Hp.
  - apply lookup_insert_eq.
Qed.

Lemma ensured_lookup_ne (p q : path) (dk : gmap path file) :
  p ≠ q → ensured p dk !! q = dk !! q.
Proof.
  intros Hne. unfold ensured. destruct (dk !! p); [done |].
  by rewrite lookup_insert_ne.
Qed.

(** The complete behaviour of [read_json_list]. *)
Lemma read_json_list_spec (p : path) (w : world) :
  read_json_list p w
  = let v := read_view p (default empty_list_file (disk w !! p)) in
    (fst v, World (ensured p (disk w)) (stderr w ++ snd v)).
Proof.
  unfold read_json_list, bind at 1. rewrite ensure_file_exists_spec.
  unfold try_except, bind at 1, read_text. cbn [disk stderr].
  rewrite ensured_lookup.
  destruct (default empty_list_file (disk w !! p)) as [| [| | v]];
    cbn; rewrite ?app_nil_r; try reflexivity.
  destruct v; cbn; try reflexivity.
  rewrite keep_dicts_spec. reflexivity.
Qed.

Lemma write_json_list_spec (p : path) (data : list dict) (w : world) :
  write_json_list p data w
  = (Ret tt,
     World (<[p := UTF8 (json_dumps data)]> (delete (tmp_path_of p) (disk w)))
       (stderr w)).
Proof.
  pose proof (tmp_path_ne p) as Hne.
  unfold write_json_list, bind at 1. rewrite ensure_file_exists_spec.
  unfold try_except, bind, write_file, replace. cbn [disk stderr].
  rewrite lookup_insert_eq. f_equal. f_equal.
  rewrite delete_insert_eq. unfold ensured.
  destruct (disk w !! p); [done |].
  rewrite delete_insert_ne by done. by rewrite insert_insert_eq.
Qed.

(** ** Entities: construction and serialization *)

Ltac inv_obind H :=
  repeat match type of H with
         | obind ?m _ = Ret _ =>
             let E := fresh "E" in
             destruct m eqn:E; cbn [obind] in H; [| discriminate H]
         end.

Lemma Hotel_new_ret (i n : string) (r : Z) (h : Hotel.t) :
  Hotel.new i n r = Ret h →
  h = Hotel.mk i n r ∧ Hotel.__post_init__ h = Ret tt.
Proof.
  unfold Hotel.new.
  destruct (Hotel.__post_init__ _) as [[] |] eqn:E; [| discriminate].
  by intros [= <-].
Qed.

Lemma Customer_new_ret (i n e : string) (c : Customer.t) :
  Customer.new i n e = Ret c →
  c = Customer.mk i n e ∧ Customer.__post_init__ c = Ret tt.
Proof.
  unfold Customer.new.
  destruct (Customer.__post_init__ _) as [[] |] eqn:E; [| discriminate].
  by intros [= <-].
Qed.

Lemma Reservation_new_ret (i h c : string) (ci co : date) (n : Z)
    (r : Reservation.t) :
  Reservation.new i h c ci co n = Ret r →
  r = Reservation.mk i h c ci co n ∧ Reservation.__post_init__ r = Ret tt.
Proof.
  unfold Reservation.new.
  destruct (Reservation.__post_init__ _) as [[] |] eqn:E; [| discriminate].
  by intros [= <-].
Qed.

Lemma Hotel_new_valid (h : Hotel.t) :
  Hotel.__post_init__ h = Ret tt →
  Hotel.new (Hotel.hotel_id h) (Hotel.name h) (Hotel.rooms_total h) = Ret h.
Proof. unfold Hotel.new. destruct h; simpl. by intros ->. Qed.

Lemma Customer_new_valid (c : Customer.t) :
  Customer.__post_init__ c = Ret tt →
  Customer.new (Customer.customer_id c) (Customer.name c) (Customer.email c)
  = Ret c.
Proof. unfold Customer.new. destruct c; simpl. by intros ->. Qed.

Lemma Reservation_new_valid (r : Reservation.t) :
  Reservation.__post_init__ r = Ret tt →
  Reservation.new (Reservation.reservation_id r) (Reservation.hotel_id r)
    (Reservation.customer_id r) (Reservation.check_in r)
    (Reservation.check_out r) (Reservation.rooms r) = Ret r.
Proof. unfold Reservation.new. destruct r; simpl. by intros ->. Qed.

Lemma Hotel_from_dict_valid `{Interpreter} (data : dict) (h : Hotel.t) :
  Hotel.from_dict data = Ret h → Hotel.__post_init__ h = Ret tt.
Proof.
  unfold Hotel.from_dict. intros Hd. inv_obind Hd.
  by apply Hotel_new_ret in Hd as [_ ?].
Qed.

Lemma Customer_from_dict_valid `{Interpreter} (data : dict) (c : Customer.t) :
  Customer.from_dict data = Ret c → Customer.__post_init__ c = Ret tt.
Proof.
  unfold Customer.from_dict. intros Hd. inv_obind Hd.
  by apply Customer_new_ret in Hd as [_ ?].
Qed.

Lemma Reservation_from_dict_valid `{Interpreter} (data : dict)
    (r : Reservation.t) :
  Reservation.from_dict data = Ret r → Reservation.__post_init__ r = Ret tt.
Proof.
  unfold Reservation.from_dict. intros Hd. inv_obind Hd.
  by apply Reservation_new_ret in Hd as [_ ?].
Qed.

Lemma Hotel_from_to `{Interpreter} (h : Hotel.t) :
  Hotel.__post_init__ h = Ret tt → Hotel.from_dict (Hotel.to_dict h) = Ret h.
Proof.
  intros Hv. unfold Hotel.from_dict, Hotel.to_dict, getitem.
  cbn. by apply Hotel_new_valid.
Qed.

Lemma Customer_from_to `{Interpreter} (c : Customer.t) :
  Customer.__post_init__ c = Ret tt →
  Customer.from_dict (Customer.to_dict c) = Ret c.
Proof.
  intros Hv. unfold Customer.from_dict, Customer.to_dict, getitem.
  cbn. by apply Customer_new_valid.
Qed.

Lemma Reservation_fields_lookup (a b c d e f : json) :
  let m : dict :=
    {[ "reservation_id" := a; "hotel_id" := b; "customer_id" := c;
       "check_in" := d; "check_out" := e; "rooms" := f ]} in
  m !! "reservation_id" = Some a ∧ m !! "hotel_id" = Some b
  ∧ m !! "customer_id" = Some c ∧ m !! "check_in" = Some d
  ∧ m !! "check_out" = Some e ∧ m !! "rooms" = Some f.
Proof. cbv zeta. repeat split; reflexivity. Qed.

Lemma Reservation_from_fields `{Interpreter}
    (i h c ci co : string) (n : Z) :
  Reservation.from_dict
    {[ "reservation_id" := JStr i; "hotel_id" := JStr h;
       "customer_id" := JStr c; "check_in" := JStr ci;
       "check_out" := JStr co; "rooms" := JInt n ]}
  = (let! d1 := fromisoformat ci in
     let! d2 := fromisoformat co in
     Reservation.new i h c d1 d2 n)%py.
Proof.
  unfold Reservation.from_dict, getitem.
  destruct (Reservation_fields_lookup (JStr i) (JStr h) (JStr c) (JStr ci)
              (JStr co) (JInt n)) as (-> & -> & -> & -> & -> & ->).
  reflexivity.
Qed.

Lemma Reservation_from_to `{Interpreter} (r : Reservation.t) :
  Reservation.__post_init__ r = Ret tt →
  Reservation.from_dict (Reservation.to_dict r) = Ret r.
Proof.
  intros Hv. unfold Reservation.to_dict.
  rewrite Reservation_from_fields, !fromisoformat_isoformat.
  cbn [obind]. by apply Reservation_new_valid.
Qed.

(** ** Files that are not written *)

Lemma same_file_refl (p : path) (w : world) : same_file p w w.
Proof. by left. Qed.

Lemma same_file_trans (p : path) (w1 w2 w3 : world) :
  same_file p w1 w2 → same_file p w2 w3 → same_file p w1 w3.
Proof.
  unfold same_file. intros [H12 | [H1 H2]] [H23 | [H2' H3]].
  - left. congruence.
  - right. split; congruence.
  - right. split; congruence.
  - congruence.
Qed.

Lemma untouched_refl (w : world) : untouched w w.
Proof. intros p. apply same_file_refl. Qed.

Lemma untouched_trans (w1 w2 w3 : world) :
  untouched w1 w2 → untouched w2 w3 → untouched w1 w3.
Proof. intros H12 H23 p. eapply same_file_trans; eauto. Qed.

Lemma untouched_ensured (q : path) (w w' : world) :
  disk w' = ensured q (disk w) → untouched w w'.
Proof.
  intros Hd p. unfold same_file. rewrite Hd.
  destruct (decide (q = p)) as [-> | Hne].
  - rewrite ensured_lookup. destruct (disk w !! p); simpl; auto.
  - left. by apply ensured_lookup_ne.
Qed.

Lemma untouched_same_disk (w w' : world) : disk w' = disk w → untouched w w'.
Proof. intros Hd p. left. by rewrite Hd. Qed.

Lemma same_file_default (p : path) (w w' : world) :
  same_file p w w' →
  default empty_list_file (disk w' !! p) = default empty_list_file (disk w !! p).
Proof. intros [-> | [-> ->]]; reflexivity. Qed.

Lemma stored_same_file (p : path) (w w' : world) :
  same_file p w w' → stored p w' = stored p w.
Proof.
  intros Hs. unfold stored. rewrite !read_json_list_spec. cbn.
  by rewrite (same_file_default _ _ _ Hs).
Qed.

(** ** Loaders *)

Lemma load_loop_spec {A} (f : dict → outcome A) (k : entity_kind) (p : path)
    (raw : list dict) :
  ∀ idx acc w,
    load_loop f k p idx raw acc w
    = let v := load_view f k p idx raw acc in
      (fst v, World (disk w) (stderr w ++ snd v)).
Proof.
  induction raw as [| item rest IH]; intros idx acc w.
  - cbn. rewrite app_nil_r. by destruct w.
  - cbn [load_loop load_view]. unfold bind at 1, try_except, bind at 1, lift.
    destruct (f item) as [e | exc].
    + cbn. apply IH.
    + fold (skippable exc). destruct (skippable exc).
      * unfold bind, _print_error, ret. rewrite IH. cbn.
        by rewrite <- app_assoc.
      * cbn. rewrite app_nil_r. by destruct w.
Qed.

Lemma load_collection_spec {A} (f : dict → outcome A) (k : entity_kind)
    (p : path) (w : world) :
  load_collection f k p w
  = let r := read_view p (default empty_list_file (disk w !! p)) in
    match fst r with
    | Ret raw =>
        let v := load_view f k p 0 raw [] in
        (fst v, World (ensured p (disk w)) (stderr w ++ snd r ++ snd v))
    | Raise e => (Raise e, World (ensured p (disk w)) (stderr w ++ snd r))
    end.
Proof.
  unfold load_collection, bind. rewrite read_json_list_spec. cbn zeta.
  destruct (fst (read_view _ _)); cbn [fst snd]; [| reflexivity].
  rewrite load_loop_spec. cbn. by rewrite app_assoc.
Qed.

Lemma load_collection_disk {A} (f : dict → outcome A) (k : entity_kind)
    (p : path) (w w' : world) (o : outcome (list A)) :
  load_collection f k p w = (o, w') → disk w' = ensured p (disk w).
Proof.
  rewrite load_collection_spec. cbn zeta.
  destruct (fst (read_view _ _)); by intros [= _ <-].
Qed.

Lemma load_collection_untouched {A} (f : dict → outcome A) (k : entity_kind)
    (p : path) (w w' : world) (o : outcome (list A)) :
  load_collection f k p w = (o, w') → untouched w w'.
Proof. intros Hl. eapply untouched_ensured, load_collection_disk, Hl. Qed.

Lemma load_view_Forall {A} (f : dict → outcome A) (k : entity_kind) (p : path)
    (P : A → Prop) (raw : list dict) :
  (∀ item e, f item = Ret e → P e) →
  ∀ idx acc l,
    fst (load_view f k p idx raw acc) = Ret l → Forall P acc → Forall P l.
Proof.
  intros HP. induction raw as [| item rest IH]; intros idx acc l.
  - cbn. by intros [= <-].
  - cbn [load_view]. destruct (f item) as [e | exc] eqn:Hf.
    + intros Hl Hacc. eapply IH; [exact Hl |].
      apply Forall_app. split; [done |]. constructor; eauto.
    + destruct (skippable exc); cbn; [apply IH | discriminate].
Qed.

Lemma load_collection_Forall {A} (f : dict → outcome A) (k : entity_kind)
    (p : path) (P : A → Prop) (w w' : world) (l : list A) :
  (∀ item e, f item = Ret e → P e) →
  load_collection f k p w = (Ret l, w') → Forall P l.
Proof.
  intros HP. rewrite load_collection_spec. cbn zeta.
  destruct (fst (read_view _ _)); [| discriminate].
  intros [= Hl _]. eapply load_view_Forall; eauto.
Qed.

Lemma load_view_saved {A} (f : dict → outcome A) (g : A → dict)
    (k : entity_kind) (p : path) (l : list A) :
  Forall (λ e, f (g e) = Ret e) l →
  ∀ idx acc, load_view f k p idx (g <$> l) acc = (Ret (acc ++ l), []).
Proof.
  induction 1 as [| e l He _ IH]; intros idx acc.
  - cbn. by rewrite app_nil_r.
  - cbn [fmap list_fmap load_view]. rewrite He, IH.
    by rewrite <- app_assoc.
Qed.

Lemma dicts_of_dicts (l : list dict) : dicts_of (JDict <$> l) = l.
Proof.
  unfold dicts_of. induction l as [| d l IH]; [done |].
  cbn. by rewrite IH.
Qed.

Lemma skipped_dicts (p : path) (l : list dict) :
  ∀ idx, skipped p idx (JDict <$> l) = [].
Proof. induction l as [| d l IH]; intros idx; [done | apply IH]. Qed.

(** Loading a collection that was saved from valid entities gives these
    entities back, prints nothing and leaves the world as it is. *)
Lemma load_collection_saved {A} (f : dict → outcome A) (g : A → dict)
    (k : entity_kind) (p : path) (l : list A) (w : world) :
  disk w !! p = Some (UTF8 (json_dumps (g <$> l))) →
  Forall (λ e, f (g e) = Ret e) l →
  load_collection f k p w = (Ret l, w).
Proof.
  intros Hp Hl. rewrite load_collection_spec, Hp. cbn.
  rewrite dicts_of_dicts, skipped_dicts, load_view_saved by done.
  cbn. rewrite app_nil_r. unfold ensured. rewrite Hp. by destruct w.
Qed.

Lemma load_collection_fst {A} (f : dict → outcome A) (k : entity_kind)
    (p : path) (w w' : world) :
  same_file p w w' →
  fst (load_collection f k p w') = fst (load_collection f k p w).
Proof.
  intros Hs. rewrite !load_collection_spec. cbn zeta.
  rewrite (same_file_default _ _ _ Hs).
  by destruct (fst (read_view _ _)).
Qed.

(** An exception that the loaders do not catch escapes from them: the
    float infinity (written 1e999 in a file) makes [int] raise
    [OverflowError], which is not among [KeyError], [ValueError] and
    [TypeError]. *)
Example load_reservations_overflow :
  let record : dict :=
    {[ "reservation_id" := JStr "R1"; "hotel_id" := JStr "H1";
       "customer_id" := JStr "C1"; "check_in" := JStr "2026-03-01";
       "check_out" := JStr "2026-03-05";
       "rooms" := JFloat (S754_infinity false) ]} in
  fst (load_reservations (H := strict_interpreter)
         (World {[ _RESERVATIONS_PATH := UTF8 (json_dumps [record]) ]} []))
  = Raise OverflowError.
Proof. vm_compute. reflexivity. Qed.

(** ** The overlap predicate *)

(** C2.  [_overlaps] on the half-open intervals [a_start, a_end) and
    [b_start, b_end) is true exactly when [a_start] is earlier than [b_end]
    and [b_start] is earlier than [a_end]; it is symmetric in the two
    intervals; [2026-03-01, 2026-03-05) does not overlap
    [2026-03-05, 2026-03-08) and does overlap [2026-03-04, 2026-03-06). *)
Theorem overlaps_half_open_symmetric :
  (∀ a_start a_end b_start b_end,
     _overlaps a_start a_end b_start b_end = true
     ↔ earlier a_start b_end ∧ earlier b_start a_end)
  ∧ (∀ a_start a_end b_start b_end,
       _overlaps a_start a_end b_start b_end
       = _overlaps b_start b_end a_start a_end)
  ∧ _overlaps d_2026_03_01 d_2026_03_05 d_2026_03_05 d_2026_03_08 = false
  ∧ _overlaps d_2026_03_01 d_2026_03_05 d_2026_03_04 d_2026_03_06 = true.
Proof.
  repeat split.
  - unfold _overlaps in *. destruct (date_lt a_start b_end) eqn:E; [| done].
    by apply date_lt_earlier.
  - unfold _overlaps in *. destruct (date_lt b_start a_end) eqn:E.
    + by apply date_lt_earlier.
    + by rewrite andb_false_r in *.
  - intros [H1 H2]. unfold _overlaps.
    apply date_lt_earlier in H1, H2. by rewrite H1, H2.
  - intros. unfold _overlaps. apply andb_comm.
Qed.

(** ** The record store on the files it can meet *)

(** C9 (the program departs from it).  A file whose bytes do not decode as
    UTF-8 makes [read_json_list] raise [UnicodeDecodeError]: the exception is
    a [ValueError] that is neither a [JSONDecodeError] nor an [OSError], and
    no handler of [read_json_list] catches it. *)
Theorem read_json_list_raises_on_undecodable_file (p : path) :
  read_json_list p (World {[ p := NotUTF8 ]} [])
  = (Raise UnicodeDecodeError, World {[ p := NotUTF8 ]} []).
Proof.
  rewrite read_json_list_spec. cbn [disk stderr].
  rewrite lookup_singleton_eq. cbn. f_equal. f_equal.
  unfold ensured. by rewrite lookup_singleton_eq.
Qed.

(** On every file that decodes, and on a missing file, [read_json_list]
    returns: the empty sequence for a missing file, a blank file, text that
    is not JSON and a JSON value that is not a list; the dictionaries of the
    list, in order, otherwise. *)
Lemma read_json_list_tolerant (p : path) (w : world) :
  disk w !! p ≠ Some NotUTF8 →
  fst (read_json_list p w)
  = Ret match disk w !! p with
        | Some (UTF8 (JSON (JList items))) => dicts_of items
        | _ => []
        end.
Proof.
  intros Hp. rewrite read_json_list_spec. cbn zeta. cbn [fst].
  destruct (disk w !! p) as [[| [| | v]] |]; try done.
  by destruct v.
Qed.

(** Scenario E: one valid object and one element that is not an object. *)
Lemma read_json_list_scenario_E (p : path) (record : dict) (other : json)
    (w : world) :
  is_dict other = false →
  disk w !! p = Some (UTF8 (JSON (JList [JDict record; other]))) →
  fst (read_json_list p w) = Ret [record].
Proof.
  intros Ho Hp. rewrite read_json_list_tolerant by (rewrite Hp; discriminate).
  rewrite Hp. by destruct other.
Qed.

(** ** Round trip of the entity serialization *)

(** C8.  For every fields map of the right shape and types (dates as
    YYYY-MM-DD strings) from which an entity is constructed, serializing the
    entity gives the fields map back; maps are equal when they hold the same
    value at every key, whatever the order of the keys. *)
Theorem to_fields_construct_round_trip `{Interpreter} (k : entity_kind)
    (fields : dict) (e : entity) :
  well_shaped k fields → construct k fields = Ret e → to_fields e = fields.
Proof.
  intros Hshape. destruct Hshape as [i n r | i n m | i h c ci co n Hci Hco];
    unfold construct; intros Hc; inv_obind Hc; injection Hc as <-;
    cbn [to_fields].
  - unfold Hotel.from_dict, getitem in E. cbn in E.
    apply Hotel_new_ret in E as [-> _]. reflexivity.
  - unfold Customer.from_dict, getitem in E. cbn in E.
    apply Customer_new_ret in E as [-> _]. reflexivity.
  - rewrite Reservation_from_fields in E. inv_obind E.
    apply Reservation_new_ret in E as [-> _].
    unfold Reservation.to_dict. cbn [Reservation.reservation_id
      Reservation.hotel_id Reservation.customer_id Reservation.check_in
      Reservation.check_out Reservation.rooms].
    by rewrite (isoformat_fromisoformat ci), (isoformat_fromisoformat co).
Qed.

Lemma to_fields_construct_round_trip_witness :
  to_fields (AReservation
               (Reservation.mk "R1" "H1" "C1" d_2026_03_01 d_2026_03_05 3))
  = {[ "reservation_id" := JStr "R1"; "hotel_id" := JStr "H1";
       "customer_id" := JStr "C1"; "check_in" := JStr "2026-03-01";
       "check_out" := JStr "2026-03-05"; "rooms" := JInt 3 ]}.
Proof.
  apply (@to_fields_construct_round_trip strict_interpreter KReservation).
  - apply shaped_reservation; vm_compute; eauto.
  - vm_compute. reflexivity.
Defined.

(** ** Availability engine *)

Lemma rooms_booked_from (reservations : list Reservation.t) (hotel_id : string)
    (check_in check_out : date) :
  ∀ acc,
    fold_left
      (λ total res,
         if negb (String.eqb (Reservation.hotel_id res) hotel_id) then total
         else if _overlaps (Reservation.check_in res)
                   (Reservation.check_out res) check_in check_out
              then total + Reservation.rooms res
              else total)
      reservations acc
    = acc + rooms_committed reservations hotel_id check_in check_out.
Proof.
  unfold rooms_committed, total.
  induction reservations as [| r rs IH]; intros acc; cbn [fold_left List.filter].
  - cbn. lia.
  - rewrite IH. destruct (String.eqb _ _); cbn [negb andb].
    + destruct (_overlaps _ _ _ _); cbn; lia.
    + reflexivity.
Qed.

Lemma rooms_booked_committed (reservations : list Reservation.t)
    (hotel_id : string) (check_in check_out : date) :
  _rooms_booked_for_hotel reservations hotel_id check_in check_out
  = rooms_committed reservations hotel_id check_in check_out.
Proof. unfold _rooms_booked_for_hotel. by rewrite rooms_booked_from. Qed.

(** ** Steps of the service functions *)

Lemma find_is_Some_existsb {A} (f : A → bool) (l : list A) :
  bool_decide (is_Some (List.find f l)) = existsb f l.
Proof.
  induction l as [| a l IH]; cbn; [done |].
  destruct (f a); [done | exact IH].
Qed.

Lemma find_None_existsb {A} (f : A → bool) (l : list A) :
  List.find f l = None ↔ existsb f l = false.
Proof.
  induction l as [| a l IH]; cbn; [done |].
  destruct (f a); [split; discriminate | exact IH].
Qed.

Lemma filter_length_forallb {A} (f : A → bool) (l : list A) :
  Nat.eqb (length (List.filter f l)) (length l) = forallb f l.
Proof.
  induction l as [| a l IH]; cbn; [done |].
  destruct (f a); cbn; [exact IH |].
  apply Nat.eqb_neq. pose proof (List.filter_length_le f l). lia.
Qed.

Lemma forallb_negb_existsb {A} (f : A → bool) (l : list A) :
  forallb (λ a, negb (f a)) l = negb (existsb f l).
Proof.
  induction l as [| a l IH]; cbn; [done |].
  rewrite IH. by destruct (f a).
Qed.

Lemma save_then_true (p : path) (data : list dict) (w : world) :
  (write_json_list p data;; ret true) w = (Ret true, after_write p data w).
Proof. unfold bind. by rewrite write_json_list_spec. Qed.

Lemma print_then_false (d : diagnostic) (w : world) :
  (_print_error d;; ret false) w = (Ret false, after_print d w).
Proof. reflexivity. Qed.

Lemma untouched_after_print (d : diagnostic) (w w1 : world) :
  untouched w w1 → untouched w (after_print d w1).
Proof.
  intros Hu. eapply untouched_trans; [exact Hu |].
  by apply untouched_same_disk.
Qed.

Lemma rewritten_after_write (p : path) (data : list dict) (w w1 : world) :
  untouched w w1 → rewritten p data w (after_write p data w1).
Proof.
  intros Hu. pose proof (tmp_path_ne p). unfold rewritten, after_write.
  cbn [disk]. repeat split.
  - apply lookup_insert_eq.
  - rewrite lookup_insert_ne by done. apply lookup_delete_eq.
  - intros q Hq Hq'. eapply same_file_trans; [apply Hu |].
    left. cbn [disk]. rewrite lookup_insert_ne by done.
    by rewrite lookup_delete_ne.
Qed.

(** The constructor of a reservation refuses exactly the requests with a
    blank id, a check-out that is not after the check-in, or no rooms. *)
Lemma Reservation_new_cases (i h c : string) (ci co : date) (n : Z) :
  if blank i || blank h || blank c || date_le co ci || (n <=? 0)
  then ∃ msg, Reservation.new i h c ci co n = Raise (ValueError msg)
  else Reservation.new i h c ci co n = Ret (Reservation.mk i h c ci co n).
Proof.
  unfold Reservation.new, Reservation.__post_init__, blank.
  cbn [Reservation.reservation_id Reservation.hotel_id
       Reservation.customer_id Reservation.check_in Reservation.check_out
       Reservation.rooms].
  destruct (negb (truthy (strip i))), (negb (truthy (strip h))),
    (negb (truthy (strip c))), (date_le co ci), (n <=? 0);
    cbn [orb obind]; eauto.
Qed.

(** The complete behaviour of [create_reservation] once the three
    collections are loaded. *)
Lemma create_reservation_spec `{Interpreter} (w w3 : world)
    (hs : list Hotel.t) (cs : list Customer.t) (rs : list Reservation.t)
    (i h c : string) (ci co : date) (n : Z) :
  loaded w hs cs rs w3 →
  match admission hs cs rs i h c ci co n with
  | Some f =>
      ∃ d, reports i h c f d
           ∧ create_reservation i h c ci co n w = (Ret false, after_print d w3)
  | None =>
      create_reservation i h c ci co n w
      = (Ret true,
         after_write _RESERVATIONS_PATH
           (Reservation.to_dict <$> rs ++ [Reservation.mk i h c ci co n]) w3)
  end.
Proof.
  intros (w1 & w2 & H1 & H2 & H3).
  destruct (create_reservation i h c ci co n w) as [o w'] eqn:Hrun.
  unfold create_reservation, bind at 1 in Hrun. rewrite H1 in Hrun.
  unfold bind at 1 in Hrun. rewrite H2 in Hrun.
  unfold bind at 1 in Hrun. rewrite H3 in Hrun.
  unfold _find_reservation, _find_hotel, _find_customer in Hrun.
  rewrite find_is_Some_existsb in Hrun. unfold admission.
  destruct (existsb _ rs).
  { rewrite print_then_false in Hrun. rewrite <- Hrun. by eexists. }
  destruct (List.find _ hs) as [hotel |].
  2: { rewrite print_then_false in Hrun. rewrite <- Hrun. by eexists. }
  destruct (List.find _ cs) as [customer |] eqn:Hc.
  2: { apply find_None_existsb in Hc. rewrite Hc. cbn [negb].
       rewrite print_then_false in Hrun. rewrite <- Hrun. by eexists. }
  assert (existsb (λ c0, String.eqb (Customer.customer_id c0) c) cs = true)
    as ->.
  { destruct (existsb _ cs) eqn:He; [done |].
    apply find_None_existsb in He. congruence. }
  cbn [negb].
  pose proof (Reservation_new_cases i h c ci co n) as Hnew.
  destruct (_ || _).
  { destruct Hnew as [msg Hnew]. rewrite Hnew in Hrun.
    cbn [construct_or_fail is_ValueError] in Hrun.
    rewrite print_then_false in Hrun. rewrite <- Hrun.
    eexists. split; [| reflexivity]. cbn. eauto. }
  rewrite Hnew in Hrun. cbn [construct_or_fail Reservation.rooms] in Hrun.
  rewrite rooms_booked_committed in Hrun.
  destruct (_ <? n).
  - rewrite print_then_false in Hrun. rewrite <- Hrun. by eexists.
  - unfold save_reservations in Hrun. rewrite save_then_true in Hrun.
    by rewrite <- Hrun.
Qed.

Lemma cancel_reservation_spec `{Interpreter} (w w1 : world)
    (rs : list Reservation.t) (i : string) :
  load_reservations w = (Ret rs, w1) →
  cancel_reservation i w
  = if existsb (λ r, String.eqb (Reservation.reservation_id r) i) rs
    then (Ret true,
          after_write _RESERVATIONS_PATH
            (Reservation.to_dict <$>
               List.filter
                 (λ r, negb (String.eqb (Reservation.reservation_id r) i)) rs)
            w1)
    else (Ret false, after_print (NotFound KReservation i) w1).
Proof.
  intros Hl. unfold cancel_reservation, bind at 1. rewrite Hl.
  rewrite filter_length_forallb, forallb_negb_existsb.
  destruct (existsb _ rs); cbn [negb].
  - unfold save_reservations. apply save_then_true.
  - apply print_then_false.
Qed.

Lemma load_reservations_valid `{Interpreter} (w w' : world)
    (rs : list Reservation.t) :
  load_reservations w = (Ret rs, w') →
  Forall (λ r, Reservation.__post_init__ r = Ret tt) rs.
Proof.
  apply load_collection_Forall. intros item e.
  apply Reservation_from_dict_valid.
Qed.

Lemma load_hotels_valid `{Interpreter} (w w' : world) (hs : list Hotel.t) :
  load_hotels w = (Ret hs, w') →
  Forall (λ h, Hotel.__post_init__ h = Ret tt) hs.
Proof.
  apply load_collection_Forall. intros item e. apply Hotel_from_dict_valid.
Qed.

Lemma load_customers_valid `{Interpreter} (w w' : world)
    (cs : list Customer.t) :
  load_customers w = (Ret cs, w') →
  Forall (λ c, Customer.__post_init__ c = Ret tt) cs.
Proof.
  apply load_collection_Forall. intros item e. apply Customer_from_dict_valid.
Qed.

(** Reading back what [save_reservations] wrote. *)
Lemma load_reservations_after_write `{Interpreter} (rs : list Reservation.t)
    (w : world) :
  Forall (λ r, Reservation.__post_init__ r = Ret tt) rs →
  let w' := after_write _RESERVATIONS_PATH (Reservation.to_dict <$> rs) w in
  load_reservations w' = (Ret rs, w').
Proof.
  intros Hv w'.
  apply (load_collection_saved Reservation.from_dict Reservation.to_dict).
  - apply lookup_insert_eq.
  - eapply Forall_impl; [exact Hv |]. intros r. apply Reservation_from_to.
Qed.

Lemma Reservation_valid_rooms (r : Reservation.t) :
  Reservation.__post_init__ r = Ret tt → 0 < Reservation.rooms r.
Proof.
  unfold Reservation.__post_init__.
  repeat (destruct (negb _); [discriminate |]).
  destruct (date_le _ _); [discriminate |].
  destruct (Reservation.rooms r <=? 0) eqn:E; [discriminate |]. lia.
Qed.

(** ** Occupancy *)

Lemma total_app (l1 l2 : list Z) : total (l1 ++ l2) = total l1 + total l2.
Proof.
  unfold total. induction l1 as [| x l1 IH]; cbn; [done |]. rewrite IH. lia.
Qed.

Lemma occupancy_app (rs : list Reservation.t) (r : Reservation.t)
    (h : string) (t : date) :
  occupancy (rs ++ [r]) h t
  = occupancy rs h t
    + (if String.eqb (Reservation.hotel_id r) h && active r t
       then Reservation.rooms r else 0).
Proof.
  unfold occupancy. rewrite List.filter_app, fmap_app, total_app.
  cbn [List.filter]. destruct (_ && _); cbn; lia.
Qed.

Lemma active_overlaps (r : Reservation.t) (t check_in check_out : date) :
  active r t = true → date_le check_in t = true →
  date_lt t check_out = true →
  _overlaps (Reservation.check_in r) (Reservation.check_out r)
    check_in check_out = true.
Proof.
  unfold active, _overlaps.
  rewrite !date_le_rank, !date_lt_rank, !andb_true_iff.
  rewrite !Z.leb_le, !Z.ltb_lt. lia.
Qed.

(** The rooms taken at an instant of a range are among the rooms committed
    over the range. *)
Lemma occupancy_le_committed (rs : list Reservation.t) (h : string)
    (t check_in check_out : date) :
  Forall (λ r, 0 < Reservation.rooms r) rs →
  date_le check_in t = true → date_lt t check_out = true →
  occupancy rs h t ≤ rooms_committed rs h check_in check_out.
Proof.
  intros Hpos Hin Hout. unfold occupancy, rooms_committed, total.
  induction Hpos as [| r rs Hr _ IH]; cbn [List.filter]; [done |].
  destruct (String.eqb _ _); cbn [andb]; [| exact IH].
  destruct (active r t) eqn:Ha.
  - rewrite (active_overlaps r t check_in check_out) by done. cbn. lia.
  - destruct (_overlaps _ _ _ _); cbn; lia.
Qed.

(** ** Admission *)


Lemma admission_None (hs : list Hotel.t) (cs : list Customer.t)
    (rs : list Reservation.t) (i h c : string) (ci co : date) (n : Z) :
  admission hs cs rs i h c ci co n = None →
  ∃ hotel,
    _find_hotel hs h = Some hotel
    ∧ Reservation.new i h c ci co n = Ret (Reservation.mk i h c ci co n)
    ∧ n ≤ Hotel.rooms_total hotel - rooms_committed rs h ci co.
Proof.
  unfold admission, _find_hotel.
  destruct (existsb _ rs); [discriminate |].
  destruct (List.find _ hs) as [hotel |]; [| discriminate].
  destruct (negb _); [discriminate |].
  pose proof (Reservation_new_cases i h c ci co n) as Hcases.
  destruct (_ || _); [discriminate |].
  destruct (_ <? n) eqn:Hlt; [discriminate |].
  intros _. exists hotel. repeat split; [done |]. lia.
Qed.

Lemma find_hotel_id (hs : list Hotel.t) (h : string) (hotel : Hotel.t) :
  _find_hotel hs h = Some hotel → Hotel.hotel_id hotel = h.
Proof.
  unfold _find_hotel. intros Hf. apply find_some in Hf as [_ Heq].
  by apply String.eqb_eq.
Qed.

(** ** The reservation service *)

(** C1.  When [create_reservation] returns success, the reservations that
    the store then holds are the ones it held with the new one appended, and
    for every hotel [H] known to the service whose rooms in use never
    exceeded [H.rooms_total] before the call, the rooms in use at any instant
    do not exceed [H.rooms_total] after it. *)
Theorem create_reservation_preserves_capacity `{Interpreter} (w w3 w' : world)
    (hs : list Hotel.t) (cs : list Customer.t) (rs : list Reservation.t)
    (i h c : string) (ci co : date) (n : Z) (hid : string) (H0 : Hotel.t) :
  loaded w hs cs rs w3 →
  create_reservation i h c ci co n w = (Ret true, w') →
  _find_hotel hs hid = Some H0 →
  (∀ t, occupancy rs hid t ≤ Hotel.rooms_total H0) →
  let rs' := rs ++ [Reservation.mk i h c ci co n] in
  fst (load_reservations w') = Ret rs'
  ∧ ∀ t, occupancy rs' hid t ≤ Hotel.rooms_total H0.
Proof.
  intros Hl Hrun Hfind Hbefore rs'.
  pose proof (create_reservation_spec w w3 hs cs rs i h c ci co n Hl) as Hspec.
  destruct (admission hs cs rs i h c ci co n) eqn:Hadm.
  { destruct Hspec as (d & _ & Hd). congruence. }
  rewrite Hspec in Hrun. injection Hrun as <-.
  apply admission_None in Hadm as (hotel & Hhotel & Hnew & Hcap).
  destruct Hl as (w1 & w2 & _ & _ & Hload).
  apply load_reservations_valid in Hload as Hvalid.
  apply Reservation_new_ret in Hnew as [_ Hnewvalid].
  assert (Forall (λ r, Reservation.__post_init__ r = Ret tt) rs') as Hvalid'.
  { apply Forall_app. split; [done |]. by constructor. }
  split.
  - by rewrite (load_reservations_after_write rs' w3 Hvalid').
  - intros t. subst rs'. rewrite occupancy_app.
    cbn [Reservation.hotel_id Reservation.rooms].
    destruct (String.eqb h hid) eqn:Hh; cbn [andb].
    2: { specialize (Hbefore t). lia. }
    apply String.eqb_eq in Hh. subst hid.
    assert (H0 = hotel) as -> by congruence.
    destruct (active _ t) eqn:Ha.
    2: { specialize (Hbefore t). lia. }
    unfold active in Ha. cbn in Ha. apply andb_true_iff in Ha as [Hin Hout].
    assert (Forall (λ r, 0 < Reservation.rooms r) rs) as Hpos.
    { eapply Forall_impl; [exact Hvalid |]. apply Reservation_valid_rooms. }
    pose proof (occupancy_le_committed rs h t ci co Hpos Hin Hout). lia.
Qed.

Lemma create_reservation_preserves_capacity_witness :
  let r2 := Reservation.mk "R2" "H1" "C1" d_2026_03_02 d_2026_03_04 2 in
  let rs' := [reservation_R1] ++ [r2] in
  fst (load_reservations (H := strict_interpreter) (example_world 10 rs'))
  = Ret rs'
  ∧ ∀ t, occupancy rs' "H1" t ≤ 10.
Proof.
  set (w := example_world 10 [reservation_R1]).
  apply (create_reservation_preserves_capacity (H := strict_interpreter)
           w w (example_world 10
                  [reservation_R1;
                   Reservation.mk "R2" "H1" "C1" d_2026_03_02 d_2026_03_04 2])
           [hotel_H1 10] [customer_C1] [reservation_R1] "R2" "H1" "C1"
           d_2026_03_02 d_2026_03_04 2 "H1" (hotel_H1 10)).
  - exists w, w. split; [| split]; vm_compute; reflexivity.
  - vm_compute. reflexivity.
  - reflexivity.
  - intros t. unfold occupancy. cbn.
    destruct (active reservation_R1 t); vm_compute; discriminate.
Defined.






(** C5.  [cancel_reservation] succeeds exactly when a loaded reservation
    has the id: it then saves the loaded reservations without the ones of
    that id, and a second call on the result fails with "not found"; when
    no loaded reservation has the id it fails with "not found" and writes
    nothing. *)
Theorem cancel_reservation_twice `{Interpreter} (w w1 : world)
    (rs : list Reservation.t) (i : string) :
  load_reservations w = (Ret rs, w1) →
  let found := ∃ r, r ∈ rs ∧ Reservation.reservation_id r = i in
  let remaining :=
    List.filter (λ r, negb (String.eqb (Reservation.reservation_id r) i)) rs in
  let w' :=
    after_write _RESERVATIONS_PATH (Reservation.to_dict <$> remaining) w1 in
  (fst (cancel_reservation i w) = Ret true ↔ found)
  ∧ (found →
     cancel_reservation i w = (Ret true, w')
     ∧ cancel_reservation i w'
       = (Ret false, after_print (NotFound KReservation i) w'))
  ∧ (¬ found →
     cancel_reservation i w
     = (Ret false, after_print (NotFound KReservation i) w1)
     ∧ untouched w (after_print (NotFound KReservation i) w1)).
Proof.
  intros Hl found remaining w'.
  assert (existsb (λ r, String.eqb (Reservation.reservation_id r) i) rs = true
          ↔ found) as Hfound.
  { rewrite existsb_exists. unfold found.
    split; intros (r & Hr & Hi); exists r.
    - split; [by apply list_elem_of_In | by apply String.eqb_eq].
    - split; [by apply list_elem_of_In | by apply String.eqb_eq]. }
  pose proof (cancel_reservation_spec w w1 rs i Hl) as Hspec.
  assert (Forall (λ r, Reservation.__post_init__ r = Ret tt) remaining)
    as Hvalid.
  { apply load_reservations_valid in Hl.
    rewrite Forall_forall in Hl |- *. intros r Hr.
    apply Hl. unfold remaining in Hr. rewrite list_elem_of_In in Hr |- *.
    apply filter_In in Hr. tauto. }
  destruct (existsb _ rs) eqn:He.
  - assert found as Hf by by apply Hfound.
    split; [by rewrite Hspec |]. split; [| done]. intros _. split; [done |].
    rewrite (cancel_reservation_spec w' w' remaining i).
    2: { by apply load_reservations_after_write. }
    replace (existsb _ remaining) with false; [done |].
    symmetry. apply not_true_is_false. rewrite existsb_exists.
    intros (r & Hr & Hi). unfold remaining in Hr. apply filter_In in Hr.
    destruct Hr as [_ Hr]. by rewrite Hi in Hr.
  - assert (¬ found) as Hnf by (rewrite <- Hfound; discriminate).
    split; [rewrite Hspec; cbn; split; [discriminate | done] |].
    split; [done |]. intros _. split; [done |].
    apply untouched_after_print.
    eapply load_collection_untouched. exact Hl.
Qed.

Lemma cancel_reservation_twice_witness :
  let w := example_world 10 [reservation_R1] in
  let w' := after_write _RESERVATIONS_PATH [] w in
  cancel_reservation (H := strict_interpreter) "R1" w = (Ret true, w')
  ∧ cancel_reservation (H := strict_interpreter) "R1" w'
    = (Ret false, after_print (NotFound KReservation "R1") w').
Proof.
  intros w w'.
  apply (cancel_reservation_twice (H := strict_interpreter) w w
           [reservation_R1] "R1").
  - vm_compute. reflexivity.
  - exists reservation_R1. split; [constructor | reflexivity].
Defined.

(** ** Every operation is all-or-nothing *)

Lemma valid_records_hotels `{Interpreter} (l : list Hotel.t) :
  Forall (λ h, Hotel.__post_init__ h = Ret tt) l →
  Forall (valid_record KHotel) (Hotel.to_dict <$> l).
Proof.
  intros Hl. apply Forall_fmap. eapply Forall_impl; [exact Hl |].
  intros h Hv. exists (AHotel h). split; [| done].
  unfold construct. by rewrite Hotel_from_to.
Qed.

Lemma valid_records_customers `{Interpreter} (l : list Customer.t) :
  Forall (λ c, Customer.__post_init__ c = Ret tt) l →
  Forall (valid_record KCustomer) (Customer.to_dict <$> l).
Proof.
  intros Hl. apply Forall_fmap. eapply Forall_impl; [exact Hl |].
  intros c Hv. exists (ACustomer c). split; [| done].
  unfold construct. by rewrite Customer_from_to.
Qed.

Lemma valid_records_reservations `{Interpreter} (l : list Reservation.t) :
  Forall (λ r, Reservation.__post_init__ r = Ret tt) l →
  Forall (valid_record KReservation) (Reservation.to_dict <$> l).
Proof.
  intros Hl. apply Forall_fmap. eapply Forall_impl; [exact Hl |].
  intros r Hv. exists (AReservation r). split; [| done].
  unfold construct. by rewrite Reservation_from_to.
Qed.

Lemma transactional_fail `{Interpreter} (k : entity_kind) (d : diagnostic)
    (w w1 : world) :
  untouched w w1 → transactional k w ((_print_error d;; ret false) w1).
Proof.
  intros Hu. rewrite print_then_false. by apply untouched_after_print.
Qed.

Lemma transactional_raise `{Interpreter} (k : entity_kind) (e : exn)
    (w w1 : world) :
  untouched w w1 → transactional k w (Raise e, w1).
Proof. done. Qed.

Lemma transactional_save `{Interpreter} (k : entity_kind) (data : list dict)
    (w w1 : world) :
  untouched w w1 → Forall (valid_record k) data →
  transactional k w ((write_json_list (store_path k) data;; ret true) w1).
Proof.
  intros Hu Hv. rewrite save_then_true. exists data.
  split; [by apply rewritten_after_write | done].
Qed.

Lemma transactional_construct `{Interpreter} {A} (k : entity_kind)
    (o : outcome A) (body : A → M bool) (w w1 : world) :
  untouched w w1 →
  (∀ a, o = Ret a → transactional k w (body a w1)) →
  transactional k w (construct_or_fail o body w1).
Proof.
  intros Hu Hbody. unfold construct_or_fail. destruct o as [a | exc].
  - by apply Hbody.
  - destruct (is_ValueError exc).
    + by apply transactional_fail.
    + by apply transactional_raise.
Qed.

Lemma Forall_filter_valid {A} (P : A → Prop) (f : A → bool) (l : list A) :
  Forall P l → Forall P (List.filter f l).
Proof.
  rewrite !Forall_forall. intros Hl a Ha. apply Hl.
  rewrite list_elem_of_In in Ha |- *. apply filter_In in Ha. tauto.
Qed.

Lemma Forall_replace_valid {A} (P : A → Prop) (f : A → bool) (a : A)
    (l : list A) :
  P a → Forall P l → Forall P (List.map (λ x, if f x then a else x) l).
Proof.
  intros Ha Hl. induction Hl as [| x l Hx _ IH]; cbn; [done |].
  constructor; [by destruct (f x) | done].
Qed.

Lemma create_hotel_transactional `{Interpreter} (i n : string) (r : Z)
    (w : world) :
  transactional KHotel w (create_hotel i n r w).
Proof.
  unfold create_hotel, bind at 1.
  destruct (load_hotels w) as [[hs | e] w1] eqn:Hl.
  2: { apply transactional_raise. eapply load_collection_untouched, Hl. }
  pose proof (load_collection_untouched _ _ _ _ _ _ Hl) as Hu.
  apply load_hotels_valid in Hl as Hv.
  destruct (bool_decide _); [by apply transactional_fail |].
  apply transactional_construct; [done |]. intros h Hnew.
  apply Hotel_new_ret in Hnew as [_ Hnew].
  apply (transactional_save KHotel); [done |].
  apply valid_records_hotels, Forall_app. split; [done | by constructor].
Qed.

Lemma delete_hotel_transactional `{Interpreter} (i : string) (w : world) :
  transactional KHotel w (delete_hotel i w).
Proof.
  unfold delete_hotel, bind at 1.
  destruct (load_hotels w) as [[hs | e] w1] eqn:Hl.
  2: { apply transactional_raise. eapply load_collection_untouched, Hl. }
  pose proof (load_collection_untouched _ _ _ _ _ _ Hl) as Hu.
  apply load_hotels_valid in Hl as Hv.
  destruct (Nat.eqb _ _); [by apply transactional_fail |].
  apply (transactional_save KHotel); [done |].
  by apply valid_records_hotels, Forall_filter_valid.
Qed.

Lemma modify_hotel_transactional `{Interpreter} (i : string)
    (n : option string) (r : option Z) (w : world) :
  transactional KHotel w (modify_hotel i n r w).
Proof.
  unfold modify_hotel, bind at 1.
  destruct (load_hotels w) as [[hs | e] w1] eqn:Hl.
  2: { apply transactional_raise. eapply load_collection_untouched, Hl. }
  pose proof (load_collection_untouched _ _ _ _ _ _ Hl) as Hu.
  apply load_hotels_valid in Hl as Hv.
  destruct (_find_hotel hs i) as [hotel |]; [| by apply transactional_fail].
  apply transactional_construct; [done |]. intros h Hnew.
  apply Hotel_new_ret in Hnew as [_ Hnew].
  apply (transactional_save KHotel); [done |].
  by apply valid_records_hotels, Forall_replace_valid.
Qed.

Lemma create_customer_transactional `{Interpreter} (i n e : string)
    (w : world) :
  transactional KCustomer w (create_customer i n e w).
Proof.
  unfold create_customer, bind at 1.
  destruct (load_customers w) as [[cs | exc] w1] eqn:Hl.
  2: { apply transactional_raise. eapply load_collection_untouched, Hl. }
  pose proof (load_collection_untouched _ _ _ _ _ _ Hl) as Hu.
  apply load_customers_valid in Hl as Hv.
  destruct (bool_decide _); [by apply transactional_fail |].
  apply transactional_construct; [done |]. intros c Hnew.
  apply Customer_new_ret in Hnew as [_ Hnew].
  apply (transactional_save KCustomer); [done |].
  apply valid_records_customers, Forall_app. split; [done | by constructor].
Qed.

Lemma delete_customer_transactional `{Interpreter} (i : string) (w : world) :
  transactional KCustomer w (delete_customer i w).
Proof.
  unfold delete_customer, bind at 1.
  destruct (load_customers w) as [[cs | exc] w1] eqn:Hl.
  2: { apply transactional_raise. eapply load_collection_untouched, Hl. }
  pose proof (load_collection_untouched _ _ _ _ _ _ Hl) as Hu.
  apply load_customers_valid in Hl as Hv.
  destruct (Nat.eqb _ _); [by apply transactional_fail |].
  apply (transactional_save KCustomer); [done |].
  by apply valid_records_customers, Forall_filter_valid.
Qed.

Lemma modify_customer_transactional `{Interpreter} (i : string)
    (n e : option string) (w : world) :
  transactional KCustomer w (modify_customer i n e w).
Proof.
  unfold modify_customer, bind at 1.
  destruct (load_customers w) as [[cs | exc] w1] eqn:Hl.
  2: { apply transactional_raise. eapply load_collection_untouched, Hl. }
  pose proof (load_collection_untouched _ _ _ _ _ _ Hl) as Hu.
  apply load_customers_valid in Hl as Hv.
  destruct (_find_customer cs i) as [customer |];
    [| by apply transactional_fail].
  apply transactional_construct; [done |]. intros c Hnew.
  apply Customer_new_ret in Hnew as [_ Hnew].
  apply (transactional_save KCustomer); [done |].
  by apply valid_records_customers, Forall_replace_valid.
Qed.

Lemma create_reservation_transactional `{Interpreter} (i h c : string)
    (ci co : date) (n : Z) (w : world) :
  transactional KReservation w (create_reservation i h c ci co n w).
Proof.
  unfold create_reservation, bind at 1.
  destruct (load_hotels w) as [[hs | e] w1] eqn:Hl1.
  2: { apply transactional_raise. eapply load_collection_untouched, Hl1. }
  pose proof (load_collection_untouched _ _ _ _ _ _ Hl1) as Hu1.
  unfold bind at 1.
  destruct (load_customers w1) as [[cs | e] w2] eqn:Hl2.
  2: { apply transactional_raise. eapply untouched_trans; [exact Hu1 |].
       eapply load_collection_untouched, Hl2. }
  pose proof (load_collection_untouched _ _ _ _ _ _ Hl2) as Hu2.
  unfold bind at 1.
  destruct (load_reservations w2) as [[rs | e] w3] eqn:Hl3.
  2: { apply transactional_raise. eapply untouched_trans; [exact Hu1 |].
       eapply untouched_trans; [exact Hu2 |].
       eapply load_collection_untouched, Hl3. }
  pose proof (load_collection_untouched _ _ _ _ _ _ Hl3) as Hu3.
  assert (untouched w w3) as Hu by eauto using untouched_trans.
  apply load_reservations_valid in Hl3 as Hv.
  destruct (bool_decide _); [by apply transactional_fail |].
  destruct (_find_hotel hs h) as [hotel |]; [| by apply transactional_fail].
  destruct (_find_customer cs c) as [customer |];
    [| by apply transactional_fail].
  apply transactional_construct; [done |]. intros r Hnew.
  apply Reservation_new_ret in Hnew as [_ Hnew].
  destruct (_ <? _); [by apply transactional_fail |].
  apply (transactional_save KReservation); [done |].
  apply valid_records_reservations, Forall_app. split; [done | by constructor].
Qed.

Lemma cancel_reservation_transactional `{Interpreter} (i : string)
    (w : world) :
  transactional KReservation w (cancel_reservation i w).
Proof.
  unfold cancel_reservation, bind at 1.
  destruct (load_reservations w) as [[rs | e] w1] eqn:Hl.
  2: { apply transactional_raise. eapply load_collection_untouched, Hl. }
  pose proof (load_collection_untouched _ _ _ _ _ _ Hl) as Hu.
  apply load_reservations_valid in Hl as Hv.
  destruct (Nat.eqb _ _); [by apply transactional_fail |].
  apply (transactional_save KReservation); [done |].
  by apply valid_records_reservations, Forall_filter_valid.
Qed.

Lemma call_transactional `{Interpreter} (op : operation) (w : world) :
  transactional (kind_of op) w (call op w).
Proof.
  destruct op; cbn [call kind_of].
  - apply create_hotel_transactional.
  - apply delete_hotel_transactional.
  - apply modify_hotel_transactional.
  - apply create_customer_transactional.
  - apply delete_customer_transactional.
  - apply modify_customer_transactional.
  - apply create_reservation_transactional.
  - apply cancel_reservation_transactional.
Qed.

Lemma store_paths_distinct :
  _HOTELS_PATH ≠ _RESERVATIONS_PATH
  ∧ _HOTELS_PATH ≠ tmp_path_of _RESERVATIONS_PATH
  ∧ _CUSTOMERS_PATH ≠ _RESERVATIONS_PATH
  ∧ _CUSTOMERS_PATH ≠ tmp_path_of _RESERVATIONS_PATH.
Proof. repeat split; by vm_compute. Qed.

Lemma create_reservation_loaded `{Interpreter} (i h c : string)
    (ci co : date) (n : Z) (w w' : world) :
  create_reservation i h c ci co n w = (Ret true, w') →
  ∃ hs cs rs w3, loaded w hs cs rs w3.
Proof.
  unfold create_reservation, bind at 1.
  destruct (load_hotels w) as [[hs | e] w1] eqn:Hl1; [| discriminate].
  unfold bind at 1.
  destruct (load_customers w1) as [[cs | e] w2] eqn:Hl2; [| discriminate].
  unfold bind at 1.
  destruct (load_reservations w2) as [[rs | e] w3] eqn:Hl3; [| discriminate].
  intros _. exists hs, cs, rs, w3, w1, w2. auto.
Qed.

Lemma loaded_untouched `{Interpreter} (w w3 : world) (hs : list Hotel.t)
    (cs : list Customer.t) (rs : list Reservation.t) :
  loaded w hs cs rs w3 →
  untouched w w3 ∧ fst (load_reservations w) = Ret rs.
Proof.
  intros (w1 & w2 & H1 & H2 & H3).
  pose proof (load_collection_untouched _ _ _ _ _ _ H1) as Hu1.
  pose proof (load_collection_untouched _ _ _ _ _ _ H2) as Hu2.
  pose proof (load_collection_untouched _ _ _ _ _ _ H3) as Hu3.
  split; [eauto using untouched_trans |].
  assert (same_file _RESERVATIONS_PATH w w2) as Hs
    by (eapply same_file_trans; [apply Hu1 | apply Hu2]).
  unfold load_reservations in *.
  fold (load_collection Reservation.from_dict KReservation _RESERVATIONS_PATH)
    in *.
  rewrite <- (load_collection_fst _ _ _ _ _ Hs). by rewrite H3.
Qed.

(** C6.  When a service operation (create, delete, modify of hotels and
    customers, create and cancel of reservations) returns failure, no file
    was written: every file is as it was, or was missing and now holds the
    empty list, and each of the three collections, as the record store loads
    it, is what it was before the call. *)
Theorem failed_operation_writes_nothing `{Interpreter} (op : operation)
    (w w' : world) :
  call op w = (Ret false, w') →
  untouched w w' ∧ ∀ k, stored (store_path k) w' = stored (store_path k) w.
Proof.
  intros Hcall. pose proof (call_transactional op w) as Ht.
  rewrite Hcall in Ht. cbn in Ht.
  split; [done |]. intros k. apply stored_same_file, Ht.
Qed.

Lemma failed_operation_writes_nothing_witness :
  let w := example_world 10 [] in
  let w' := after_print (NotFound KHotel "H404") w in
  untouched w w' ∧ ∀ k, stored (store_path k) w' = stored (store_path k) w.
Proof.
  intros w w'.
  apply (failed_operation_writes_nothing (H := strict_interpreter)
           (CreateReservation "R1" "H404" "C1" d_2026_03_01 d_2026_03_05 1)).
  vm_compute. reflexivity.
Defined.

(** C7.  Whatever its outcome, a call to [create_reservation] leaves the
    hotels file and the customers file unwritten; when it succeeds, the
    reservations file is rewritten in full as the reservations it loaded
    with the new one appended, and no other file is written. *)
Theorem create_reservation_frame `{Interpreter} (i h c : string)
    (ci co : date) (n : Z) (w w' : world) (o : outcome bool) :
  create_reservation i h c ci co n w = (o, w') →
  same_file _HOTELS_PATH w w'
  ∧ same_file _CUSTOMERS_PATH w w'
  ∧ (o = Ret true →
     ∃ rs,
       fst (load_reservations w) = Ret rs
       ∧ rewritten _RESERVATIONS_PATH
           (Reservation.to_dict <$> rs ++ [Reservation.mk i h c ci co n])
           w w').
Proof.
  intros Hrun. destruct store_paths_distinct as (Hh & Hh' & Hc & Hc').
  assert (o = Ret true →
          ∃ rs, fst (load_reservations w) = Ret rs
                ∧ rewritten _RESERVATIONS_PATH
                    (Reservation.to_dict <$>
                       rs ++ [Reservation.mk i h c ci co n]) w w') as Hok.
  { intros ->.
    destruct (create_reservation_loaded _ _ _ _ _ _ _ _ Hrun)
      as (hs & cs & rs & w3 & Hl).
    pose proof (create_reservation_spec w w3 hs cs rs i h c ci co n Hl)
      as Hspec.
    destruct (admission hs cs rs i h c ci co n).
    { destruct Hspec as (d & _ & Hd). congruence. }
    rewrite Hspec in Hrun. injection Hrun as <-.
    apply loaded_untouched in Hl as [Hu Hrs].
    exists rs. split; [done | by apply rewritten_after_write]. }
  pose proof (create_reservation_transactional i h c ci co n w) as Ht.
  rewrite Hrun in Ht. unfold transactional in Ht. cbn [fst snd] in Ht.
  destruct o as [[|] |].
  - destruct (Hok eq_refl) as (rs & _ & _ & _ & Hframe).
    split; [by apply Hframe |]. split; [by apply Hframe | done].
  - split; [apply Ht |]. split; [apply Ht | done].
  - split; [apply Ht |]. split; [apply Ht | done].
Qed.

Lemma create_reservation_frame_witness :
  let w := example_world 10 [] in
  let w' :=
    after_write _RESERVATIONS_PATH [Reservation.to_dict reservation_R1] w in
  same_file _HOTELS_PATH w w'
  ∧ same_file _CUSTOMERS_PATH w w'
  ∧ (Ret true = Ret true →
     ∃ rs,
       fst (load_reservations (H := strict_interpreter) w) = Ret rs
       ∧ rewritten _RESERVATIONS_PATH
           (Reservation.to_dict <$> rs ++ [reservation_R1]) w w').
Proof.
  intros w w'.
  apply (create_reservation_frame (H := strict_interpreter)
           "R1" "H1" "C1" d_2026_03_01 d_2026_03_05 3).
  vm_compute. reflexivity.
Defined.

(** C10.  A successful operation rewrites its collection from the entities
    that were loaded and validated: after it, every record in the file is a
    valid entity (it passes construction and is the serialization of what it
    constructs), so a record that fails construction is in the file no
    longer, whether or not the operation was about it; no other collection
    is written. *)
Theorem successful_operation_rewrites_valid_records `{Interpreter}
    (op : operation) (w w' : world) :
  call op w = (Ret true, w') →
  ∃ records,
    rewritten (store_path (kind_of op)) records w w'
    ∧ Forall (valid_record (kind_of op)) records
    ∧ ∀ r, (∀ e, construct (kind_of op) r ≠ Ret e) → r ∉ records.
Proof.
  intros Hcall. pose proof (call_transactional op w) as Ht.
  rewrite Hcall in Ht. destruct Ht as (records & Hrw & Hvalid).
  exists records. repeat split; try apply Hrw; [done |].
  intros r Hr Hin. rewrite Forall_forall in Hvalid.
  destruct (Hvalid r Hin) as (e & He & _). by apply (Hr e).
Qed.

Lemma successful_operation_rewrites_valid_records_witness :
  ∃ records,
    rewritten _RESERVATIONS_PATH records world_with_stale_record
      (after_write _RESERVATIONS_PATH []
         (after_print
            (InvalidEntity KReservation 1 _RESERVATIONS_PATH
               (ValueError "check_out must be after check_in."))
            world_with_stale_record))
    ∧ Forall (valid_record (H := strict_interpreter) KReservation) records
    ∧ ∀ r, (∀ e, construct (H := strict_interpreter) KReservation r ≠ Ret e) →
           r ∉ records.
Proof.
  apply (successful_operation_rewrites_valid_records (H := strict_interpreter)
           (CancelReservation "R1")).
  vm_compute. reflexivity.
Defined.

(** The stale record of the example is gone after the cancellation of
    another reservation. *)
Example stale_record_dropped :
  let w' := snd (cancel_reservation (H := strict_interpreter) "R1"
                   world_with_stale_record) in
  stored _RESERVATIONS_PATH world_with_stale_record
  = Ret [Reservation.to_dict reservation_R1; stale_record]
  ∧ stored _RESERVATIONS_PATH w' = Ret [].
Proof. split; vm_compute; reflexivity. Qed.

(** ** The scenarios of the specification *)

(** Scenario A: 3 of the 10 rooms of H1 are booked, 7 remain. *)
Example scenario_A :
  let w1 :=
    snd (create_hotel (H := strict_interpreter) "H1" "Hotel Uno" 10
           (World ∅ [])) in
  let w2 :=
    snd (create_customer (H := strict_interpreter) "C1" "Edgar"
           "edgar@example.com" w1) in
  let r :=
    create_reservation (H := strict_interpreter) "R1" "H1" "C1"
      d_2026_03_01 d_2026_03_05 3 w2 in
  fst r = Ret true
  ∧ fst (load_reservations (H := strict_interpreter) (snd r))
    = Ret [reservation_R1]
  ∧ 10 - _rooms_booked_for_hotel [reservation_R1] "H1"
           d_2026_03_01 d_2026_03_05 = 7.
Proof. repeat split; vm_compute; reflexivity. Qed.

(** Scenario B: the 3 rooms of H1 are booked, a request for 1 room over
    overlapping days fails with availability 0. *)
Example scenario_B :
  let w := example_world 3 [reservation_R1] in
  create_reservation (H := strict_interpreter) "R2" "H1" "C1"
    d_2026_03_02 d_2026_03_04 1 w
  = (Ret false, after_print (NotEnoughRooms "H1" 1 0) w).
Proof. vm_compute. reflexivity. Qed.

(** Scenario C: an unknown hotel; the reservations file is as before. *)
Example scenario_C :
  let w := example_world 10 [] in
  create_reservation (H := strict_interpreter) "R1" "H404" "C1"
    d_2026_03_01 d_2026_03_05 1 w
  = (Ret false, after_print (NotFound KHotel "H404") w).
Proof. vm_compute. reflexivity. Qed.

(** Scenario D: check-in and check-out on the same day. *)
Example scenario_D :
  let w := example_world 10 [] in
  create_reservation (H := strict_interpreter) "R1" "H1" "C1"
    d_2026_03_05 d_2026_03_05 1 w
  = (Ret false,
     after_print (Invalid (ValueError "check_out must be after check_in.")) w).
Proof. vm_compute. reflexivity. Qed.

(** * Further properties of the code *)

(** ** Record store: writing and reading *)


(** [read_json_list] writes at most one file: it creates a missing file at
    its path as the empty list (and returns the empty sequence without a
    diagnostic); a file that exists is left as it is, and so is every other
    path. *)
Theorem read_json_list_creates_only_missing_file (p : path) (w : world) :
  let r := read_json_list p w in
  (∀ q, q ≠ p → disk (snd r) !! q = disk w !! q)
  ∧ (is_Some (disk w !! p) → disk (snd r) = disk w)
  ∧ (disk w !! p = None →
     r = (Ret [], World (<[p := empty_list_file]> (disk w)) (stderr w))).
Proof.
  cbn zeta. rewrite read_json_list_spec. cbn [snd disk]. repeat split.
  - intros q Hq. by apply ensured_lookup_ne.
  - intros [f Hf]. unfold ensured. by rewrite Hf.
  - intros Hp. unfold ensured. rewrite Hp. cbn. by rewrite app_nil_r.
Qed.




(** ** Entities: what construction reads and guarantees *)

Lemma blank_false (s : string) : negb (truthy (strip s)) = blank s.
Proof. reflexivity. Qed.

Lemma Hotel_valid_well_formed (h : Hotel.t) :
  Hotel.__post_init__ h = Ret tt → well_formed (AHotel h).
Proof.
  unfold Hotel.__post_init__, well_formed. rewrite !blank_false.
  destruct (blank (Hotel.hotel_id h)); [discriminate |].
  destruct (blank (Hotel.name h)); [discriminate |].
  destruct (Hotel.rooms_total h <=? 0) eqn:E; [discriminate |].
  intros _. repeat split. lia.
Qed.

Lemma Customer_valid_well_formed (c : Customer.t) :
  Customer.__post_init__ c = Ret tt → well_formed (ACustomer c).
Proof.
  unfold Customer.__post_init__, well_formed. rewrite !blank_false.
  destruct (blank (Customer.customer_id c)); [discriminate |].
  destruct (blank (Customer.name c)); [discriminate |].
  destruct (contains "@" (Customer.email c)); [| discriminate].
  done.
Qed.

Lemma Reservation_valid_well_formed (r : Reservation.t) :
  Reservation.__post_init__ r = Ret tt → well_formed (AReservation r).
Proof.
  unfold Reservation.__post_init__, well_formed. rewrite !blank_false.
  destruct (blank (Reservation.reservation_id r)); [discriminate |].
  destruct (blank (Reservation.hotel_id r)); [discriminate |].
  destruct (blank (Reservation.customer_id r)); [discriminate |].
  destruct (date_le _ _) eqn:Hle; [discriminate |].
  destruct (Reservation.rooms r <=? 0) eqn:E; [discriminate |].
  intros _. repeat split; [| lia].
  apply date_lt_earlier. rewrite date_lt_rank.
  rewrite date_le_rank in Hle. lia.
Qed.

Lemma construct_validate `{Interpreter} (k : entity_kind) (fields : dict)
    (e : entity) :
  construct k fields = Ret e → validate e = Ret tt ∧ kind_of_entity e = k.
Proof.
  destruct k; unfold construct; intros Hc; inv_obind Hc;
    injection Hc as <-; cbn; split; try done.
  - eapply Hotel_from_dict_valid, E.
  - eapply Customer_from_dict_valid, E.
  - eapply Reservation_from_dict_valid, E.
Qed.

(** Every entity that construction returns, from whatever record, satisfies
    the invariants of the data model: ids and names that are not blank, a
    positive number of rooms, an email with an at sign, a check-in earlier
    than the check-out. *)
Theorem constructed_entities_are_well_formed `{Interpreter}
    (k : entity_kind) (fields : dict) (e : entity) :
  construct k fields = Ret e → well_formed e.
Proof.
  intros Hc. apply construct_validate in Hc as [Hv _].
  destruct e; cbn in Hv.
  - by apply Hotel_valid_well_formed.
  - by apply Customer_valid_well_formed.
  - by apply Reservation_valid_well_formed.
Qed.

Lemma constructed_entities_are_well_formed_witness :
  well_formed (AReservation reservation_R1).
Proof.
  apply (constructed_entities_are_well_formed (H := strict_interpreter)
           KReservation (Reservation.to_dict reservation_R1)).
  vm_compute. reflexivity.
Defined.

(** Constructing from the serialization of a valid entity gives the entity
    back. *)
Theorem construct_to_fields_round_trip `{Interpreter} (e : entity) :
  validate e = Ret tt → construct (kind_of_entity e) (to_fields e) = Ret e.
Proof.
  destruct e; cbn; intros Hv.
  - by rewrite Hotel_from_to.
  - by rewrite Customer_from_to.
  - by rewrite Reservation_from_to.
Qed.

Lemma construct_to_fields_round_trip_witness :
  construct (H := strict_interpreter) KCustomer (Customer.to_dict customer_C1)
  = Ret (ACustomer customer_C1).
Proof.
  apply (construct_to_fields_round_trip (H := strict_interpreter)
           (ACustomer customer_C1)).
  vm_compute. reflexivity.
Defined.

(** Construction reads the keys of its entity and nothing else: two records
    that agree on these keys construct the same entity or raise the same
    exception, so keys that a record has in addition are ignored. *)
Theorem construct_reads_its_keys_only `{Interpreter} (k : entity_kind)
    (d1 d2 : dict) :
  (∀ key, key ∈ keys_of k → d1 !! key = d2 !! key) →
  construct k d1 = construct k d2.
Proof.
  intros Hk.
  assert (∀ key, key ∈ keys_of k → getitem d1 key = getitem d2 key) as Hg.
  { intros key Hin. unfold getitem. by rewrite (Hk key Hin). }
  destruct k; cbn [keys_of] in Hg; unfold construct, Hotel.from_dict,
    Customer.from_dict, Reservation.from_dict.
  - rewrite (Hg "hotel_id"), (Hg "name"), (Hg "rooms_total") by set_solver.
    reflexivity.
  - rewrite (Hg "customer_id"), (Hg "name"), (Hg "email") by set_solver.
    reflexivity.
  - rewrite (Hg "reservation_id"), (Hg "hotel_id"), (Hg "customer_id"),
      (Hg "check_in"), (Hg "check_out"), (Hg "rooms") by set_solver.
    reflexivity.
Qed.

Lemma construct_reads_its_keys_only_witness :
  construct (H := strict_interpreter) KHotel
    (<[ "stars" := JInt 4 ]> (Hotel.to_dict (hotel_H1 10)))
  = construct (H := strict_interpreter) KHotel (Hotel.to_dict (hotel_H1 10)).
Proof.
  apply (construct_reads_its_keys_only (H := strict_interpreter) KHotel).
  intros key Hkey. apply lookup_insert_ne. intros <-.
  vm_compute in Hkey. by repeat (apply elem_of_cons in Hkey as [? | Hkey];
    [discriminate |]); apply elem_of_nil in Hkey.
Defined.

(** ** Loaders and savers *)

Lemma load_view_accepted {A} (f : dict → outcome A) (k : entity_kind)
    (p : path) (raw : list dict) :
  ∀ idx acc l,
    fst (load_view f k p idx raw acc) = Ret l → l = acc ++ accepted f raw.
Proof.
  unfold accepted.
  induction raw as [| item rest IH]; intros idx acc l; cbn [load_view omap
    list_omap].
  - cbn. intros [= <-]. by rewrite app_nil_r.
  - destruct (f item) as [e | exc].
    + intros Hl. apply IH in Hl. by rewrite <- app_assoc in Hl.
    + destruct (skippable exc); cbn [fst]; [apply IH | discriminate].
Qed.

Lemma load_collection_accepted {A} (f : dict → outcome A) (k : entity_kind)
    (p : path) (w w' : world) (l : list A) :
  load_collection f k p w = (Ret l, w') →
  ∃ raw, stored p w = Ret raw ∧ l = accepted f raw.
Proof.
  unfold stored. rewrite load_collection_spec, read_json_list_spec.
  cbn zeta. cbn [fst].
  destruct (fst (read_view _ _)) as [raw |]; [| discriminate].
  intros [= Hl _]. exists raw. split; [done |].
  by apply load_view_accepted in Hl.
Qed.

(** A loader returns the entities of the records from which one is
    constructed, in the order of the file: [load_hotels], [load_customers]
    and [load_reservations] are order-preserving filters of the stored
    records. *)
Theorem loaders_keep_constructible_records `{Interpreter} (w w' : world) :
  (∀ hs, load_hotels w = (Ret hs, w') →
         ∃ raw, stored _HOTELS_PATH w = Ret raw
                ∧ hs = accepted Hotel.from_dict raw)
  ∧ (∀ cs, load_customers w = (Ret cs, w') →
           ∃ raw, stored _CUSTOMERS_PATH w = Ret raw
                  ∧ cs = accepted Customer.from_dict raw)
  ∧ (∀ rs, load_reservations w = (Ret rs, w') →
           ∃ raw, stored _RESERVATIONS_PATH w = Ret raw
                  ∧ rs = accepted Reservation.from_dict raw).
Proof. repeat split; intros l; apply load_collection_accepted. Qed.

Lemma loaders_keep_constructible_records_witness :
  ∃ raw,
    stored _RESERVATIONS_PATH world_with_stale_record = Ret raw
    ∧ [reservation_R1]
      = accepted (Reservation.from_dict (H := strict_interpreter)) raw.
Proof.
  apply (loaders_keep_constructible_records (H := strict_interpreter)
           world_with_stale_record
           (after_print
              (InvalidEntity KReservation 1 _RESERVATIONS_PATH
                 (ValueError "check_out must be after check_in."))
              world_with_stale_record)).
  vm_compute. reflexivity.
Defined.














Lemma load_hotels_after_write `{Interpreter} (hs : list Hotel.t) (w : world) :
  Forall (λ h, Hotel.__post_init__ h = Ret tt) hs →
  let w' := after_write _HOTELS_PATH (Hotel.to_dict <$> hs) w in
  load_hotels w' = (Ret hs, w').
Proof.
  intros Hv w'.
  apply (load_collection_saved Hotel.from_dict Hotel.to_dict).
  - apply lookup_insert_eq.
  - eapply Forall_impl; [exact Hv |]. intros h. apply Hotel_from_to.
Qed.

Lemma load_customers_after_write `{Interpreter} (cs : list Customer.t)
    (w : world) :
  Forall (λ c, Customer.__post_init__ c = Ret tt) cs →
  let w' := after_write _CUSTOMERS_PATH (Customer.to_dict <$> cs) w in
  load_customers w' = (Ret cs, w').
Proof.
  intros Hv w'.
  apply (load_collection_saved Customer.from_dict Customer.to_dict).
  - apply lookup_insert_eq.
  - eapply Forall_impl; [exact Hv |]. intros c. apply Customer_from_to.
Qed.




(** ** CRUD of hotels *)

Lemma Hotel_new_cases (i n : string) (r : Z) :
  if blank i || blank n || (r <=? 0)
  then ∃ msg, Hotel.new i n r = Raise (ValueError msg)
  else Hotel.new i n r = Ret (Hotel.mk i n r).
Proof.
  unfold Hotel.new, Hotel.__post_init__, blank.
  cbn [Hotel.hotel_id Hotel.name Hotel.rooms_total].
  destruct (negb (truthy (strip i))), (negb (truthy (strip n))), (r <=? 0);
    cbn [orb obind]; eauto.
Qed.

Lemma find_app_None {A} (f : A → bool) (l l' : list A) :
  List.find f l = None → List.find f (l ++ l') = List.find f l'.
Proof.
  induction l as [| a l IH]; cbn; [done |].
  destruct (f a); [discriminate | exact IH].
Qed.

Lemma find_replace_same {A} (f g : A → bool) (u : A) (l : list A) :
  g u = true → (∀ a, f a = true → g a = true) →
  (∀ a, g a = true → f a = true) →
  List.find g (List.map (λ a, if f a then u else a) l)
  = (λ _, u) <$> List.find g l.
Proof.
  intros Hu Hfg Hgf. induction l as [| a l IH]; cbn; [done |].
  destruct (f a) eqn:Hf.
  - by rewrite Hu, (Hfg a Hf).
  - destruct (g a) eqn:Hg; [| exact IH].
    apply Hgf in Hg. congruence.
Qed.

Lemma find_replace_other {A} (f g : A → bool) (u : A) (l : list A) :
  g u = false → (∀ a, f a = true → g a = false) →
  List.find g (List.map (λ a, if f a then u else a) l) = List.find g l.
Proof.
  intros Hu Hfg. induction l as [| a l IH]; cbn; [done |].
  destruct (f a) eqn:Hf.
  - by rewrite Hu, (Hfg a Hf).
  - by destruct (g a).
Qed.

Lemma create_hotel_spec `{Interpreter} (w w1 : world) (hs : list Hotel.t)
    (i n : string) (r : Z) :
  load_hotels w = (Ret hs, w1) →
  create_hotel i n r w
  = if existsb (λ h, String.eqb (Hotel.hotel_id h) i) hs
    then (Ret false, after_print (AlreadyExists KHotel i) w1)
    else if blank i || blank n || (r <=? 0)
    then match Hotel.new i n r with
         | Raise exc => (Ret false, after_print (Invalid exc) w1)
         | Ret _ => (Ret false, w1)
         end
    else (Ret true,
          after_write _HOTELS_PATH
            (Hotel.to_dict <$> hs ++ [Hotel.mk i n r]) w1).
Proof.
  intros Hl. unfold create_hotel, bind at 1. rewrite Hl.
  unfold _find_hotel. rewrite find_is_Some_existsb.
  destruct (existsb _ hs); [apply print_then_false |].
  pose proof (Hotel_new_cases i n r) as Hc.
  destruct (_ || _).
  - destruct Hc as [msg ->]. cbn [construct_or_fail is_ValueError].
    apply print_then_false.
  - rewrite Hc. cbn [construct_or_fail]. unfold save_hotels.
    apply save_then_true.
Qed.

Lemma display_hotel_spec `{Interpreter} (w w1 : world) (hs : list Hotel.t)
    (i : string) :
  load_hotels w = (Ret hs, w1) →
  display_hotel i w
  = match _find_hotel hs i with
    | None => (Ret None, after_print (NotFound KHotel i) w1)
    | Some hotel => (Ret (Some (Hotel.to_dict hotel)), w1)
    end.
Proof.
  intros Hl. unfold display_hotel, bind at 1. rewrite Hl.
  by destruct (_find_hotel hs i).
Qed.

Lemma delete_hotel_spec `{Interpreter} (w w1 : world) (hs : list Hotel.t)
    (i : string) :
  load_hotels w = (Ret hs, w1) →
  delete_hotel i w
  = if existsb (λ h, String.eqb (Hotel.hotel_id h) i) hs
    then (Ret true,
          after_write _HOTELS_PATH
            (Hotel.to_dict <$>
               List.filter (λ h, negb (String.eqb (Hotel.hotel_id h) i)) hs)
            w1)
    else (Ret false, after_print (NotFound KHotel i) w1).
Proof.
  intros Hl. unfold delete_hotel, bind at 1. rewrite Hl.
  rewrite filter_length_forallb, forallb_negb_existsb.
  destruct (existsb _ hs); cbn [negb].
  - unfold save_hotels. apply save_then_true.
  - apply print_then_false.
Qed.

Lemma modify_hotel_spec `{Interpreter} (w w1 : world) (hs : list Hotel.t)
    (i : string) (n : option string) (r : option Z) :
  load_hotels w = (Ret hs, w1) →
  modify_hotel i n r w
  = match _find_hotel hs i with
    | None => (Ret false, after_print (NotFound KHotel i) w1)
    | Some old =>
        let new_name := default (Hotel.name old) n in
        let new_rooms := default (Hotel.rooms_total old) r in
        if blank new_name || (new_rooms <=? 0)
        then match Hotel.new i new_name new_rooms with
             | Raise exc => (Ret false, after_print (Invalid exc) w1)
             | Ret _ => (Ret false, w1)
             end
        else (Ret true,
              after_write _HOTELS_PATH
                (Hotel.to_dict <$>
                   List.map (λ h, if String.eqb (Hotel.hotel_id h) i
                                  then Hotel.mk i new_name new_rooms else h)
                     hs)
                w1)
    end.
Proof.
  intros Hl. unfold modify_hotel, bind at 1. rewrite Hl.
  destruct (_find_hotel hs i) as [old |] eqn:Hf; [| apply print_then_false].
  cbn zeta. apply load_hotels_valid in Hl.
  assert (Hotel.hotel_id old = i) as Hid by by apply find_hotel_id in Hf.
  assert (blank i = false) as Hblank.
  { unfold _find_hotel in Hf. apply find_some in Hf as [Hin _].
    rewrite Forall_forall in Hl. apply list_elem_of_In, Hl in Hin.
    apply Hotel_valid_well_formed in Hin as [Hb _]. by rewrite <- Hid. }
  rewrite Hid.
  pose proof (Hotel_new_cases i (default (Hotel.name old) n)
                (default (Hotel.rooms_total old) r)) as Hc.
  rewrite Hblank in Hc. cbn [orb] in Hc.
  destruct (_ || _).
  - destruct Hc as [msg ->]. cbn [construct_or_fail is_ValueError].
    apply print_then_false.
  - rewrite Hc. cbn [construct_or_fail]. unfold save_hotels.
    apply save_then_true.
Qed.

Lemma create_hotel_loaded `{Interpreter} (i n : string) (r : Z)
    (w w' : world) :
  create_hotel i n r w = (Ret true, w') →
  ∃ hs w1, load_hotels w = (Ret hs, w1).
Proof.
  unfold create_hotel, bind at 1.
  destruct (load_hotels w) as [[hs | e] w1]; [eauto | discriminate].
Qed.



(** After a successful [create_hotel], [display_hotel] of the id returns
    the fields that were given, printing nothing, and creating a hotel with
    the same id again fails with "already exists", whatever its fields. *)
Theorem create_hotel_then_display_and_duplicate `{Interpreter} (w w' : world)
    (i n : string) (r : Z) :
  create_hotel i n r w = (Ret true, w') →
  display_hotel i w' = (Ret (Some (Hotel.to_dict (Hotel.mk i n r))), w')
  ∧ ∀ n' r',
      create_hotel i n' r' w'
      = (Ret false, after_print (AlreadyExists KHotel i) w').
Proof.
  intros Hrun. destruct (create_hotel_loaded _ _ _ _ _ Hrun) as (hs & w1 & Hl).
  rewrite (create_hotel_spec w w1 hs i n r Hl) in Hrun.
  destruct (existsb _ hs) eqn:Hex; [discriminate |].
  pose proof (Hotel_new_cases i n r) as Hc.
  destruct (_ || _).
  { destruct Hc as [msg Hc]. rewrite Hc in Hrun. discriminate. }
  injection Hrun as <-.
  apply Hotel_new_ret in Hc as [_ Hv]. apply load_hotels_valid in Hl.
  assert (Forall (λ h, Hotel.__post_init__ h = Ret tt)
            (hs ++ [Hotel.mk i n r])) as Hvalid.
  { apply Forall_app. split; [done | by constructor]. }
  pose proof (load_hotels_after_write _ w1 Hvalid) as Hl'. cbn zeta in Hl'.
  split.
  - rewrite (display_hotel_spec _ _ _ i Hl'). unfold _find_hotel.
    rewrite find_app_None by by apply find_None_existsb.
    cbn. by rewrite String.eqb_refl.
  - intros n' r'. rewrite (create_hotel_spec _ _ _ i n' r' Hl').
    rewrite existsb_app. cbn. by rewrite String.eqb_refl, orb_true_r.
Qed.

Lemma create_hotel_then_display_and_duplicate_witness :
  let w' := after_write _HOTELS_PATH [Hotel.to_dict (hotel_H1 10)]
              (World ∅ []) in
  display_hotel (H := strict_interpreter) "H1" w'
  = (Ret (Some (Hotel.to_dict (hotel_H1 10))), w')
  ∧ ∀ n' r',
      create_hotel (H := strict_interpreter) "H1" n' r' w'
      = (Ret false, after_print (AlreadyExists KHotel "H1") w').
Proof.
  apply (create_hotel_then_display_and_duplicate (H := strict_interpreter)
           (World ∅ [])).
  vm_compute. reflexivity.
Defined.

(** [delete_hotel] returns [True] exactly when a loaded hotel has the id.
    It then saves the loaded hotels without the ones of that id, in their
    order; afterwards these are the hotels that load, and [display_hotel] of
    the id finds nothing.  Otherwise it prints "not found" and writes
    nothing. *)
Theorem delete_hotel_outcome `{Interpreter} (w w1 : world)
    (hs : list Hotel.t) (i : string) :
  load_hotels w = (Ret hs, w1) →
  let found := existsb (λ h, String.eqb (Hotel.hotel_id h) i) hs in
  let remaining :=
    List.filter (λ h, negb (String.eqb (Hotel.hotel_id h) i)) hs in
  let w' := after_write _HOTELS_PATH (Hotel.to_dict <$> remaining) w1 in
  fst (delete_hotel i w) = Ret found
  ∧ (found = true →
     delete_hotel i w = (Ret true, w')
     ∧ load_hotels w' = (Ret remaining, w')
     ∧ display_hotel i w' = (Ret None, after_print (NotFound KHotel i) w'))
  ∧ (found = false →
     delete_hotel i w = (Ret false, after_print (NotFound KHotel i) w1)).
Proof.
  intros Hl found remaining w'.
  rewrite (delete_hotel_spec w w1 hs i Hl). fold found remaining w'.
  assert (Forall (λ h, Hotel.__post_init__ h = Ret tt) remaining) as Hvalid.
  { apply Forall_filter_valid. eapply load_hotels_valid, Hl. }
  pose proof (load_hotels_after_write _ w1 Hvalid) as Hl'. cbn zeta in Hl'.
  fold w' in Hl'.
  destruct found; cbn [fst].
  - split; [done |]. split; [| discriminate]. intros _.
    split; [done |]. split; [done |].
    rewrite (display_hotel_spec _ _ _ i Hl').
    replace (_find_hotel remaining i) with (@None Hotel.t); [done |].
    symmetry. unfold _find_hotel, remaining. apply find_None_existsb.
    apply not_true_is_false. rewrite existsb_exists.
    intros (h & Hin & Hi). apply filter_In in Hin as [_ Hin].
    by rewrite Hi in Hin.
  - split; [done |]. split; [discriminate | done].
Qed.

Lemma delete_hotel_outcome_witness :
  let w := example_world 10 [] in
  let w' := after_write _HOTELS_PATH [] w in
  fst (delete_hotel (H := strict_interpreter) "H1" w) = Ret true
  ∧ (true = true →
     delete_hotel (H := strict_interpreter) "H1" w = (Ret true, w')
     ∧ load_hotels (H := strict_interpreter) w' = (Ret [], w')
     ∧ display_hotel (H := strict_interpreter) "H1" w'
       = (Ret None, after_print (NotFound KHotel "H1") w'))
  ∧ (true = false →
     delete_hotel (H := strict_interpreter) "H1" w
     = (Ret false, after_print (NotFound KHotel "H1") w)).
Proof.
  intros w w'.
  apply (delete_hotel_outcome (H := strict_interpreter) w w [hotel_H1 10]
           "H1").
  vm_compute. reflexivity.
Defined.






(** ** CRUD of customers *)

Lemma Customer_new_cases (i n e : string) :
  if blank i || blank n || negb (contains "@" e) || blank e
  then ∃ msg, Customer.new i n e = Raise (ValueError msg)
  else Customer.new i n e = Ret (Customer.mk i n e).
Proof.
  unfold Customer.new, Customer.__post_init__, blank.
  cbn [Customer.customer_id Customer.name Customer.email].
  destruct (negb (truthy (strip i))), (negb (truthy (strip n))),
    (negb (contains "@" e)), (negb (truthy (strip e)));
    cbn [orb obind]; eauto.
Qed.

Lemma find_customer_id (cs : list Customer.t) (i : string) (c : Customer.t) :
  _find_customer cs i = Some c → Customer.customer_id c = i.
Proof.
  unfold _find_customer. intros Hf. apply find_some in Hf as [_ Heq].
  by apply String.eqb_eq.
Qed.

Lemma create_customer_spec `{Interpreter} (w w1 : world)
    (cs : list Customer.t) (i n e : string) :
  load_customers w = (Ret cs, w1) →
  create_customer i n e w
  = if existsb (λ c, String.eqb (Customer.customer_id c) i) cs
    then (Ret false, after_print (AlreadyExists KCustomer i) w1)
    else if blank i || blank n || negb (contains "@" e) || blank e
    then match Customer.new i n e with
         | Raise exc => (Ret false, after_print (Invalid exc) w1)
         | Ret _ => (Ret false, w1)
         end
    else (Ret true,
          after_write _CUSTOMERS_PATH
            (Customer.to_dict <$> cs ++ [Customer.mk i n e]) w1).
Proof.
  intros Hl. unfold create_customer, bind at 1. rewrite Hl.
  unfold _find_customer. rewrite find_is_Some_existsb.
  destruct (existsb _ cs); [apply print_then_false |].
  pose proof (Customer_new_cases i n e) as Hc.
  destruct (_ || _).
  - destruct Hc as [msg ->]. cbn [construct_or_fail is_ValueError].
    apply print_then_false.
  - rewrite Hc. cbn [construct_or_fail]. unfold save_customers.
    apply save_then_true.
Qed.

Lemma display_customer_spec `{Interpreter} (w w1 : world)
    (cs : list Customer.t) (i : string) :
  load_customers w = (Ret cs, w1) →
  display_customer i w
  = match _find_customer cs i with
    | None => (Ret None, after_print (NotFound KCustomer i) w1)
    | Some customer => (Ret (Some (Customer.to_dict customer)), w1)
    end.
Proof.
  intros Hl. unfold display_customer, bind at 1. rewrite Hl.
  by destruct (_find_customer cs i).
Qed.

Lemma delete_customer_spec `{Interpreter} (w w1 : world)
    (cs : list Customer.t) (i : string) :
  load_customers w = (Ret cs, w1) →
  delete_customer i w
  = if existsb (λ c, String.eqb (Customer.customer_id c) i) cs
    then (Ret true,
          after_write _CUSTOMERS_PATH
            (Customer.to_dict <$>
               List.filter (λ c, negb (String.eqb (Customer.customer_id c) i))
                 cs)
            w1)
    else (Ret false, after_print (NotFound KCustomer i) w1).
Proof.
  intros Hl. unfold delete_customer, bind at 1. rewrite Hl.
  rewrite filter_length_forallb, forallb_negb_existsb.
  destruct (existsb _ cs); cbn [negb].
  - unfold save_customers. apply save_then_true.
  - apply print_then_false.
Qed.

Lemma modify_customer_spec `{Interpreter} (w w1 : world)
    (cs : list Customer.t) (i : string) (n e : option string) :
  load_customers w = (Ret cs, w1) →
  modify_customer i n e w
  = match _find_customer cs i with
    | None => (Ret false, after_print (NotFound KCustomer i) w1)
    | Some old =>
        let new_name := default (Customer.name old) n in
        let new_email := default (Customer.email old) e in
        if blank new_name || negb (contains "@" new_email) || blank new_email
        then match Customer.new i new_name new_email with
             | Raise exc => (Ret false, after_print (Invalid exc) w1)
             | Ret _ => (Ret false, w1)
             end
        else (Ret true,
              after_write _CUSTOMERS_PATH
                (Customer.to_dict <$>
                   List.map (λ c, if String.eqb (Customer.customer_id c) i
                                  then Customer.mk i new_name new_email else c)
                     cs)
                w1)
    end.
Proof.
  intros Hl. unfold modify_customer, bind at 1. rewrite Hl.
  destruct (_find_customer cs i) as [old |] eqn:Hf; [| apply print_then_false].
  cbn zeta. apply load_customers_valid in Hl.
  assert (Customer.customer_id old = i) as Hid by by apply find_customer_id in Hf.
  assert (blank i = false) as Hblank.
  { unfold _find_customer in Hf. apply find_some in Hf as [Hin _].
    rewrite Forall_forall in Hl. apply list_elem_of_In, Hl in Hin.
    apply Customer_valid_well_formed in Hin as [Hb _]. by rewrite <- Hid. }
  rewrite Hid.
  pose proof (Customer_new_cases i (default (Customer.name old) n)
                (default (Customer.email old) e)) as Hc.
  rewrite Hblank in Hc. cbn [orb] in Hc.
  destruct (_ || _).
  - destruct Hc as [msg ->]. cbn [construct_or_fail is_ValueError].
    apply print_then_false.
  - rewrite Hc. cbn [construct_or_fail]. unfold save_customers.
    apply save_then_true.
Qed.

Lemma create_customer_loaded `{Interpreter} (i n e : string) (w w' : world) :
  create_customer i n e w = (Ret true, w') →
  ∃ cs w1, load_customers w = (Ret cs, w1).
Proof.
  unfold create_customer, bind at 1.
  destruct (load_customers w) as [[cs | exc] w1]; [eauto | discriminate].
Qed.

(** A string with an at sign is not blank. *)
Lemma contains_at_not_blank (e : string) :
  contains "@" e = true → blank e = false.
Proof.
  unfold blank, strip. intros Hc.
  assert (∀ s, contains "@" s = true → contains "@" (lstrip s) = true) as Hl.
  { induction s as [| c s IH]; cbn [lstrip]; [done |].
    destruct (isspace c) eqn:Hs; [| done]. cbn [contains].
    destruct (Ascii.eqb "@" c) eqn:Hc'; [| exact IH].
    apply Ascii.eqb_eq in Hc'. subst c. discriminate. }
  assert (∀ s, contains "@" s = true → truthy (rstrip s) = true) as Hr.
  { induction s as [| c s IH]; cbn [rstrip contains]; [done |].
    destruct (rstrip s) eqn:Hrs; [| done].
    destruct (isspace c) eqn:Hs; [| done].
    destruct (Ascii.eqb "@" c) eqn:Hc'.
    - apply Ascii.eqb_eq in Hc'. subst c. discriminate.
    - cbn [orb]. intros Hcs. apply IH in Hcs. discriminate. }
  by rewrite (Hr _ (Hl _ Hc)).
Qed.

(** [create_customer] returns [True] exactly when no loaded customer has
    the id, the id and the name are not blank and the email holds an at
    sign; it then saves the loaded customers with the new one appended, and
    otherwise prints one diagnostic and writes nothing. *)
Theorem create_customer_outcome `{Interpreter} (w w1 : world)
    (cs : list Customer.t) (i n e : string) :
  load_customers w = (Ret cs, w1) →
  let ok :=
    negb (existsb (λ c, String.eqb (Customer.customer_id c) i) cs)
    && negb (blank i) && negb (blank n) && contains "@" e in
  fst (create_customer i n e w) = Ret ok
  ∧ (ok = true →
     snd (create_customer i n e w)
     = after_write _CUSTOMERS_PATH
         (Customer.to_dict <$> cs ++ [Customer.mk i n e]) w1)
  ∧ (ok = false → ∃ d, snd (create_customer i n e w) = after_print d w1).
Proof.
  intros Hl. cbn zeta. rewrite (create_customer_spec w w1 cs i n e Hl).
  pose proof (Customer_new_cases i n e) as Hc.
  destruct (existsb _ cs); cbn [negb andb fst snd].
  { split; [done |]. split; [discriminate | eauto]. }
  assert (negb (blank i) && negb (blank n) && contains "@" e
          = negb (blank i || blank n || negb (contains "@" e) || blank e))
    as ->.
  { pose proof (contains_at_not_blank e) as Hb.
    destruct (contains "@" e); [rewrite Hb by done |];
      by destruct (blank i), (blank n); rewrite ?orb_true_r. }
  destruct (_ || _); cbn [negb fst snd].
  - destruct Hc as [msg ->]. cbn [fst snd].
    split; [done |]. split; [discriminate | eauto].
  - split; [done |]. split; [done | discriminate].
Qed.

Lemma create_customer_outcome_witness :
  let w := example_world 10 [] in
  fst (create_customer (H := strict_interpreter) "C2" "Edgar" "not-an-email" w)
  = Ret false
  ∧ (false = true →
     snd (create_customer (H := strict_interpreter) "C2" "Edgar"
            "not-an-email" w)
     = after_write _CUSTOMERS_PATH
         (Customer.to_dict <$>
            [customer_C1] ++ [Customer.mk "C2" "Edgar" "not-an-email"]) w)
  ∧ (false = false →
     ∃ d, snd (create_customer (H := strict_interpreter) "C2" "Edgar"
                 "not-an-email" w) = after_print d w).
Proof.
  intros w.
  apply (create_customer_outcome (H := strict_interpreter) w w [customer_C1]
           "C2" "Edgar" "not-an-email").
  vm_compute. reflexivity.
Defined.

(** After a successful [create_customer], [display_customer] of the id
    returns the fields that were given, and creating a customer with the
    same id again fails with "already exists". *)
Theorem create_customer_then_display_and_duplicate `{Interpreter}
    (w w' : world) (i n e : string) :
  create_customer i n e w = (Ret true, w') →
  display_customer i w'
  = (Ret (Some (Customer.to_dict (Customer.mk i n e))), w')
  ∧ ∀ n' e',
      create_customer i n' e' w'
      = (Ret false, after_print (AlreadyExists KCustomer i) w').
Proof.
  intros Hrun.
  destruct (create_customer_loaded _ _ _ _ _ Hrun) as (cs & w1 & Hl).
  rewrite (create_customer_spec w w1 cs i n e Hl) in Hrun.
  destruct (existsb _ cs) eqn:Hex; [discriminate |].
  pose proof (Customer_new_cases i n e) as Hc.
  destruct (_ || _).
  { destruct Hc as [msg Hc]. rewrite Hc in Hrun. discriminate. }
  injection Hrun as <-.
  apply Customer_new_ret in Hc as [_ Hv]. apply load_customers_valid in Hl.
  assert (Forall (λ c, Customer.__post_init__ c = Ret tt)
            (cs ++ [Customer.mk i n e])) as Hvalid.
  { apply Forall_app. split; [done | by constructor]. }
  pose proof (load_customers_after_write _ w1 Hvalid) as Hl'.
  cbn zeta in Hl'. split.
  - rewrite (display_customer_spec _ _ _ i Hl'). unfold _find_customer.
    rewrite find_app_None by by apply find_None_existsb.
    cbn. by rewrite String.eqb_refl.
  - intros n' e'. rewrite (create_customer_spec _ _ _ i n' e' Hl').
    rewrite existsb_app. cbn. by rewrite String.eqb_refl, orb_true_r.
Qed.

Lemma create_customer_then_display_and_duplicate_witness :
  let w' := after_write _CUSTOMERS_PATH [Customer.to_dict customer_C1]
              (World ∅ []) in
  display_customer (H := strict_interpreter) "C1" w'
  = (Ret (Some (Customer.to_dict customer_C1)), w')
  ∧ ∀ n' e',
      create_customer (H := strict_interpreter) "C1" n' e' w'
      = (Ret false, after_print (AlreadyExists KCustomer "C1") w').
Proof.
  apply (create_customer_then_display_and_duplicate (H := strict_interpreter)
           (World ∅ [])).
  vm_compute. reflexivity.
Defined.

(** [delete_customer] returns [True] exactly when a loaded customer has the
    id; it then saves the loaded customers without the ones of that id, and
    [display_customer] of the id finds nothing afterwards.  Otherwise it
    prints "not found" and writes nothing. *)
Theorem delete_customer_outcome `{Interpreter} (w w1 : world)
    (cs : list Customer.t) (i : string) :
  load_customers w = (Ret cs, w1) →
  let found := existsb (λ c, String.eqb (Customer.customer_id c) i) cs in
  let remaining :=
    List.filter (λ c, negb (String.eqb (Customer.customer_id c) i)) cs in
  let w' := after_write _CUSTOMERS_PATH (Customer.to_dict <$> remaining) w1 in
  fst (delete_customer i w) = Ret found
  ∧ (found = true →
     delete_customer i w = (Ret true, w')
     ∧ load_customers w' = (Ret remaining, w')
     ∧ display_customer i w'
       = (Ret None, after_print (NotFound KCustomer i) w'))
  ∧ (found = false →
     delete_customer i w = (Ret false, after_print (NotFound KCustomer i) w1)).
Proof.
  intros Hl found remaining w'.
  rewrite (delete_customer_spec w w1 cs i Hl). fold found remaining w'.
  assert (Forall (λ c, Customer.__post_init__ c = Ret tt) remaining)
    as Hvalid.
  { apply Forall_filter_valid. eapply load_customers_valid, Hl. }
  pose proof (load_customers_after_write _ w1 Hvalid) as Hl'.
  cbn zeta in Hl'. fold w' in Hl'.
  destruct found; cbn [fst].
  - split; [done |]. split; [| discriminate]. intros _.
    split; [done |]. split; [done |].
    rewrite (display_customer_spec _ _ _ i Hl').
    replace (_find_customer remaining i) with (@None Customer.t); [done |].
    symmetry. unfold _find_customer, remaining. apply find_None_existsb.
    apply not_true_is_false. rewrite existsb_exists.
    intros (c & Hin & Hi). apply filter_In in Hin as [_ Hin].
    by rewrite Hi in Hin.
  - split; [done |]. split; [discriminate | done].
Qed.

Lemma delete_customer_outcome_witness :
  let w := example_world 10 [] in
  let w' := after_write _CUSTOMERS_PATH [] w in
  fst (delete_customer (H := strict_interpreter) "C1" w) = Ret true
  ∧ (true = true →
     delete_customer (H := strict_interpreter) "C1" w = (Ret true, w')
     ∧ load_customers (H := strict_interpreter) w' = (Ret [], w')
     ∧ display_customer (H := strict_interpreter) "C1" w'
       = (Ret None, after_print (NotFound KCustomer "C1") w'))
  ∧ (true = false →
     delete_customer (H := strict_interpreter) "C1" w
     = (Ret false, after_print (NotFound KCustomer "C1") w)).
Proof.
  intros w w'.
  apply (delete_customer_outcome (H := strict_interpreter) w w [customer_C1]
           "C1").
  vm_compute. reflexivity.
Defined.

Lemma display_customer_fst `{Interpreter} (w w1 : world)
    (cs : list Customer.t) (i : string) :
  load_customers w = (Ret cs, w1) →
  fst (display_customer i w)
  = Ret (Customer.to_dict <$> _find_customer cs i).
Proof.
  intros Hl. rewrite (display_customer_spec _ _ _ i Hl).
  by destruct (_find_customer cs i).
Qed.

(** [modify_customer] fails with "not found" when no loaded customer has
    the id.  Otherwise the new name and email are the given ones, or the
    current ones where none is given, and the whole customer is validated
    again: the call succeeds exactly when the new name is not blank and the
    new email holds an at sign.  [display_customer] afterwards shows the new
    fields for the id and what it showed before for every other id. *)
Theorem modify_customer_outcome `{Interpreter} (w w1 : world)
    (cs : list Customer.t) (i : string) (n e : option string) :
  load_customers w = (Ret cs, w1) →
  match _find_customer cs i with
  | None =>
      modify_customer i n e w
      = (Ret false, after_print (NotFound KCustomer i) w1)
  | Some old =>
      let new_name := default (Customer.name old) n in
      let new_email := default (Customer.email old) e in
      let updated := Customer.mk i new_name new_email in
      if negb (blank new_name) && contains "@" new_email
      then ∃ w',
          modify_customer i n e w = (Ret true, w')
          ∧ display_customer i w'
            = (Ret (Some (Customer.to_dict updated)), w')
          ∧ ∀ j, j ≠ i →
              fst (display_customer j w') = fst (display_customer j w)
      else ∃ d, modify_customer i n e w = (Ret false, after_print d w1)
  end.
Proof.
  intros Hl. rewrite (modify_customer_spec w w1 cs i n e Hl).
  destruct (_find_customer cs i) as [old |] eqn:Hf; [| done]. cbn zeta.
  set (new_name := default (Customer.name old) n).
  set (new_email := default (Customer.email old) e).
  set (updated := Customer.mk i new_name new_email).
  pose proof (Customer_new_cases i new_name new_email) as Hc.
  assert (blank i = false) as Hblank.
  { apply find_customer_id in Hf as Hid. unfold _find_customer in Hf.
    apply find_some in Hf as [Hin _]. apply load_customers_valid in Hl.
    rewrite Forall_forall in Hl. apply list_elem_of_In, Hl in Hin.
    apply Customer_valid_well_formed in Hin as [Hb _]. by rewrite <- Hid. }
  rewrite Hblank in Hc. cbn [orb] in Hc.
  assert (negb (blank new_name) && contains "@" new_email
          = negb (blank new_name || negb (contains "@" new_email)
                  || blank new_email)) as ->.
  { pose proof (contains_at_not_blank new_email) as Hb.
    destruct (contains "@" new_email); [rewrite Hb by done |];
      by destruct (blank new_name); rewrite ?orb_true_r. }
  destruct (_ || _); cbn [negb].
  { destruct Hc as [msg ->]. eauto. }
  eexists. split; [reflexivity |].
  apply Customer_new_ret in Hc as [_ Hu].
  set (cs' := List.map _ cs).
  assert (Forall (λ c, Customer.__post_init__ c = Ret tt) cs') as Hvalid.
  { apply Forall_replace_valid; [done |]. eapply load_customers_valid, Hl. }
  pose proof (load_customers_after_write _ w1 Hvalid) as Hl'.
  cbn zeta in Hl'. split.
  - rewrite (display_customer_spec _ _ _ i Hl'). unfold _find_customer, cs'.
    rewrite (find_replace_same _ _ updated); auto.
    + unfold _find_customer in Hf. by rewrite Hf.
    + cbn. apply String.eqb_refl.
  - intros j Hj. rewrite (display_customer_fst _ _ _ j Hl').
    rewrite (display_customer_fst _ _ _ j Hl). f_equal. f_equal.
    unfold _find_customer, cs'. apply find_replace_other.
    + cbn. by apply String.eqb_neq.
    + intros a Ha. apply String.eqb_eq in Ha. rewrite Ha.
      by apply String.eqb_neq.
Qed.

Lemma modify_customer_outcome_witness :
  let w := example_world 10 [] in
  ∃ w',
    modify_customer (H := strict_interpreter) "C1" (Some "Edgar Rosas") None w
    = (Ret true, w')
    ∧ display_customer (H := strict_interpreter) "C1" w'
      = (Ret (Some (Customer.to_dict
                      (Customer.mk "C1" "Edgar Rosas" "edgar@example.com"))),
         w')
    ∧ ∀ j, j ≠ "C1" →
        fst (display_customer (H := strict_interpreter) j w')
        = fst (display_customer (H := strict_interpreter) j w).
Proof.
  intros w.
  apply (modify_customer_outcome (H := strict_interpreter) w w [customer_C1]
           "C1" (Some "Edgar Rosas") None).
  vm_compute. reflexivity.
Defined.

(** ** Display *)

(** [display_hotel] and [display_customer] write no file, whatever they
    return; what they return for an id is the serialization of a valid
    entity with that id. *)
Theorem display_reads_only `{Interpreter} (w w' : world) (i : string)
    (o : outcome (option dict)) :
  (display_hotel i w = (o, w') →
   untouched w w'
   ∧ ∀ d, o = Ret (Some d) →
          valid_record KHotel d ∧ d !! "hotel_id" = Some (JStr i))
  ∧ (display_customer i w = (o, w') →
     untouched w w'
     ∧ ∀ d, o = Ret (Some d) →
            valid_record KCustomer d ∧ d !! "customer_id" = Some (JStr i)).
Proof.
  split.
  - unfold display_hotel, bind at 1.
    destruct (load_hotels w) as [[hs | e] w1] eqn:Hl.
    2: { intros [= <- <-]. split; [| done].
         eapply load_collection_untouched, Hl. }
    pose proof (load_collection_untouched _ _ _ _ _ _ Hl) as Hu.
    destruct (_find_hotel hs i) as [h |] eqn:Hf.
    + intros [= <- <-]. split; [done |]. intros d [= <-].
      apply find_hotel_id in Hf as Hid. unfold _find_hotel in Hf.
      apply find_some in Hf as [Hin _]. apply load_hotels_valid in Hl.
      rewrite Forall_forall in Hl. apply list_elem_of_In, Hl in Hin.
      split; [| by rewrite <- Hid].
      exists (AHotel h). split; [| done]. unfold construct.
      by rewrite Hotel_from_to.
    + intros [= <- <-]. split; [| done]. by apply untouched_after_print.
  - unfold display_customer, bind at 1.
    destruct (load_customers w) as [[cs | e] w1] eqn:Hl.
    2: { intros [= <- <-]. split; [| done].
         eapply load_collection_untouched, Hl. }
    pose proof (load_collection_untouched _ _ _ _ _ _ Hl) as Hu.
    destruct (_find_customer cs i) as [c |] eqn:Hf.
    + intros [= <- <-]. split; [done |]. intros d [= <-].
      apply find_customer_id in Hf as Hid. unfold _find_customer in Hf.
      apply find_some in Hf as [Hin _]. apply load_customers_valid in Hl.
      rewrite Forall_forall in Hl. apply list_elem_of_In, Hl in Hin.
      split; [| by rewrite <- Hid].
      exists (ACustomer c). split; [| done]. unfold construct.
      by rewrite Customer_from_to.
    + intros [= <- <-]. split; [| done]. by apply untouched_after_print.
Qed.

Lemma display_reads_only_witness :
  let w := example_world 10 [] in
  untouched w w
  ∧ ∀ d, Ret (Some (Hotel.to_dict (hotel_H1 10))) = Ret (Some d) →
         valid_record (H := strict_interpreter) KHotel d
         ∧ d !! "hotel_id" = Some (JStr "H1").
Proof.
  intros w.
  apply (display_reads_only (H := strict_interpreter) w w "H1"
           (Ret (Some (Hotel.to_dict (hotel_H1 10))))).
  vm_compute. reflexivity.
Defined.

(** ** Reservations: composition and accounting *)

Lemma admission_None_fresh (hs : list Hotel.t) (cs : list Customer.t)
    (rs : list Reservation.t) (i h c : string) (ci co : date) (n : Z) :
  admission hs cs rs i h c ci co n = None →
  existsb (λ r, String.eqb (Reservation.reservation_id r) i) rs = false.
Proof. unfold admission. by destruct (existsb _ rs). Qed.

Lemma filter_other_ids (rs : list Reservation.t) (i : string) :
  existsb (λ r, String.eqb (Reservation.reservation_id r) i) rs = false →
  List.filter (λ r, negb (String.eqb (Reservation.reservation_id r) i)) rs
  = rs.
Proof.
  induction rs as [| r rs IH]; cbn; [done |].
  destruct (String.eqb _ _); cbn; [discriminate |].
  intros Hex. by rewrite IH.
Qed.

Lemma create_reservation_success `{Interpreter} (w w3 w' : world)
    (hs : list Hotel.t) (cs : list Customer.t) (rs : list Reservation.t)
    (i h c : string) (ci co : date) (n : Z) :
  loaded w hs cs rs w3 →
  create_reservation i h c ci co n w = (Ret true, w') →
  admission hs cs rs i h c ci co n = None
  ∧ w' = after_write _RESERVATIONS_PATH
           (Reservation.to_dict <$> rs ++ [Reservation.mk i h c ci co n]) w3
  ∧ load_reservations w'
    = (Ret (rs ++ [Reservation.mk i h c ci co n]), w').
Proof.
  intros Hl Hrun.
  pose proof (create_reservation_spec w w3 hs cs rs i h c ci co n Hl) as Hspec.
  destruct (admission hs cs rs i h c ci co n) eqn:Hadm.
  { destruct Hspec as (d & _ & Hd). congruence. }
  rewrite Hspec in Hrun. injection Hrun as <-.
  split; [done |]. split; [done |].
  apply admission_None in Hadm as (hotel & _ & Hnew & _).
  apply Reservation_new_ret in Hnew as [_ Hv].
  destruct Hl as (w1 & w2 & _ & _ & Hload).
  apply load_reservations_valid in Hload.
  apply load_reservations_after_write, Forall_app.
  split; [done | by constructor].
Qed.

Lemma loaded_intro `{Interpreter} (w : world) (hs : list Hotel.t)
    (cs : list Customer.t) (rs : list Reservation.t) :
  fst (load_hotels w) = Ret hs → fst (load_customers w) = Ret cs →
  fst (load_reservations w) = Ret rs →
  ∃ w3, loaded w hs cs rs w3.
Proof.
  unfold load_hotels, load_customers, load_reservations, loaded.
  fold (load_collection Hotel.from_dict KHotel _HOTELS_PATH).
  fold (load_collection Customer.from_dict KCustomer _CUSTOMERS_PATH).
  fold (load_collection Reservation.from_dict KReservation
          _RESERVATIONS_PATH).
  intros H1 H2 H3.
  destruct (load_collection Hotel.from_dict KHotel _HOTELS_PATH w)
    as [o1 w1] eqn:E1.
  cbn in H1. subst o1.
  pose proof (load_collection_untouched _ _ _ _ _ _ E1) as Hu1.
  destruct (load_collection Customer.from_dict KCustomer _CUSTOMERS_PATH w1)
    as [o2 w2] eqn:E2.
  pose proof (load_collection_fst Customer.from_dict KCustomer
                _CUSTOMERS_PATH w w1 (Hu1 _)) as Hc.
  rewrite E2, H2 in Hc. cbn in Hc. subst o2.
  pose proof (load_collection_untouched _ _ _ _ _ _ E2) as Hu2.
  destruct (load_collection Reservation.from_dict KReservation
              _RESERVATIONS_PATH w2) as [o3 w3] eqn:E3.
  pose proof (load_collection_fst Reservation.from_dict KReservation
                _RESERVATIONS_PATH w w2
                (same_file_trans _ _ _ _ (Hu1 _) (Hu2 _))) as Hr.
  rewrite E3, H3 in Hr. cbn in Hr. subst o3.
  exists w3, w1, w2. auto.
Qed.

Lemma loaded_fst `{Interpreter} (w w3 : world) (hs : list Hotel.t)
    (cs : list Customer.t) (rs : list Reservation.t) :
  loaded w hs cs rs w3 →
  fst (load_hotels w) = Ret hs ∧ fst (load_customers w) = Ret cs
  ∧ fst (load_reservations w) = Ret rs.
Proof.
  intros Hl. pose proof (loaded_untouched _ _ _ _ _ Hl) as [_ Hrs].
  destruct Hl as (w1 & w2 & H1 & H2 & H3).
  split; [by rewrite H1 |]. split; [| done].
  pose proof (load_collection_untouched _ _ _ _ _ _ H1) as Hu1.
  unfold load_customers in *.
  fold (load_collection Customer.from_dict KCustomer _CUSTOMERS_PATH) in *.
  rewrite <- (load_collection_fst _ _ _ _ _ (Hu1 _)). by rewrite H2.
Qed.

(** After a successful [create_reservation], creating a reservation with
    the same id again fails, and cancelling the id succeeds and leaves
    exactly the reservations that were loaded before the creation. *)
Theorem create_reservation_then_duplicate_and_cancel `{Interpreter}
    (w w3 w' : world) (hs : list Hotel.t) (cs : list Customer.t)
    (rs : list Reservation.t) (i h c : string) (ci co : date) (n : Z) :
  loaded w hs cs rs w3 →
  create_reservation i h c ci co n w = (Ret true, w') →
  (∀ h' c' ci' co' n',
     fst (create_reservation i h' c' ci' co' n' w') = Ret false)
  ∧ let w'' := after_write _RESERVATIONS_PATH (Reservation.to_dict <$> rs) w' in
    cancel_reservation i w' = (Ret true, w'')
    ∧ load_reservations w'' = (Ret rs, w'').
Proof.
  intros Hl Hrun.
  destruct (create_reservation_success _ _ _ _ _ _ _ _ _ _ _ _ Hl Hrun)
    as (Hadm & Hw' & Hload').
  apply admission_None_fresh in Hadm as Hfresh.
  set (new := Reservation.mk i h c ci co n) in *.
  assert (existsb (λ r, String.eqb (Reservation.reservation_id r) i)
            (rs ++ [new]) = true) as Hdup.
  { rewrite existsb_app. cbn. by rewrite String.eqb_refl, orb_true_r. }
  split.
  - intros h' c' ci' co' n'.
    destruct (loaded_fst _ _ _ _ _ Hl) as (Hh & Hc & _).
    destruct store_paths_distinct as (Hp1 & Hp2 & Hp3 & Hp4).
    pose proof (loaded_untouched _ _ _ _ _ Hl) as [Hu _].
    assert (∀ q, q ≠ _RESERVATIONS_PATH →
                 q ≠ tmp_path_of _RESERVATIONS_PATH → same_file q w w')
      as Hframe.
    { rewrite Hw'. by apply rewritten_after_write. }
    assert (fst (load_hotels w') = Ret hs) as Hh'.
    { unfold load_hotels in *.
      fold (load_collection Hotel.from_dict KHotel _HOTELS_PATH) in *.
      rewrite (load_collection_fst _ _ _ w w'); [done | by apply Hframe]. }
    assert (fst (load_customers w') = Ret cs) as Hc'.
    { unfold load_customers in *.
      fold (load_collection Customer.from_dict KCustomer _CUSTOMERS_PATH) in *.
      rewrite (load_collection_fst _ _ _ w w'); [done | by apply Hframe]. }
    assert (fst (load_reservations w') = Ret (rs ++ [new])) as Hr'
      by by rewrite Hload'.
    destruct (loaded_intro w' hs cs (rs ++ [new]) Hh' Hc' Hr') as [w3' Hl'].
    pose proof (create_reservation_spec w' w3' hs cs (rs ++ [new])
                  i h' c' ci' co' n' Hl') as Hspec.
    unfold admission in Hspec. rewrite Hdup in Hspec.
    destruct Hspec as (d & _ & ->). done.
  - cbn zeta. rewrite (cancel_reservation_spec w' w' (rs ++ [new]) i Hload').
    rewrite Hdup, List.filter_app. cbn. rewrite String.eqb_refl. cbn.
    rewrite app_nil_r, filter_other_ids by done.
    split; [done |]. apply load_reservations_after_write.
    destruct Hl as (w1 & w2 & _ & _ & Hload).
    eapply load_reservations_valid, Hload.
Qed.

Lemma create_reservation_then_duplicate_and_cancel_witness :
  let w := example_world 10 [] in
  let w' :=
    after_write _RESERVATIONS_PATH [Reservation.to_dict reservation_R1] w in
  (∀ h' c' ci' co' n',
     fst (create_reservation (H := strict_interpreter) "R1" h' c' ci' co' n' w')
     = Ret false)
  ∧ let w'' := after_write _RESERVATIONS_PATH [] w' in
    cancel_reservation (H := strict_interpreter) "R1" w' = (Ret true, w'')
    ∧ load_reservations (H := strict_interpreter) w'' = (Ret [], w'').
Proof.
  intros w w'.
  apply (create_reservation_then_duplicate_and_cancel
           (H := strict_interpreter) w w w' [hotel_H1 10] [customer_C1] []
           "R1" "H1" "C1" d_2026_03_01 d_2026_03_05 3).
  - exists w, w. split; [| split]; vm_compute; reflexivity.
  - vm_compute. reflexivity.
Defined.

Lemma rooms_committed_app (rs : list Reservation.t) (r : Reservation.t)
    (h : string) (ci co : date) :
  rooms_committed (rs ++ [r]) h ci co
  = rooms_committed rs h ci co
    + (if String.eqb (Reservation.hotel_id r) h
          && _overlaps (Reservation.check_in r) (Reservation.check_out r) ci co
       then Reservation.rooms r else 0).
Proof.
  unfold rooms_committed. rewrite List.filter_app, fmap_app, total_app.
  cbn [List.filter]. destruct (_ && _); cbn; lia.
Qed.

(** After a successful [create_reservation] of [n] rooms, the rooms booked
    for the hotel over the requested range have grown by exactly [n], and
    the availability that the next request over that range will see is not
    negative. *)
Theorem create_reservation_books_its_rooms `{Interpreter} (w w3 w' : world)
    (hs : list Hotel.t) (cs : list Customer.t) (rs : list Reservation.t)
    (i h c : string) (ci co : date) (n : Z) :
  loaded w hs cs rs w3 →
  create_reservation i h c ci co n w = (Ret true, w') →
  ∃ hotel rs',
    _find_hotel hs h = Some hotel
    ∧ load_reservations w' = (Ret rs', w')
    ∧ _rooms_booked_for_hotel rs' h ci co
      = _rooms_booked_for_hotel rs h ci co + n
    ∧ 0 ≤ Hotel.rooms_total hotel - _rooms_booked_for_hotel rs' h ci co.
Proof.
  intros Hl Hrun.
  destruct (create_reservation_success _ _ _ _ _ _ _ _ _ _ _ _ Hl Hrun)
    as (Hadm & _ & Hload').
  apply admission_None in Hadm as (hotel & Hh & Hnew & Hcap).
  exists hotel, (rs ++ [Reservation.mk i h c ci co n]).
  split; [done |]. split; [done |].
  rewrite !rooms_booked_committed, rooms_committed_app.
  cbn [Reservation.hotel_id Reservation.check_in Reservation.check_out
       Reservation.rooms].
  rewrite String.eqb_refl. cbn [andb].
  assert (_overlaps ci co ci co = true) as ->.
  { apply Reservation_new_ret in Hnew as [_ Hv].
    apply Reservation_valid_well_formed in Hv as (_ & _ & _ & He & _).
    cbn in He. apply date_lt_earlier in He. unfold _overlaps. by rewrite He. }
  split; lia.
Qed.

Lemma create_reservation_books_its_rooms_witness :
  let w := example_world 10 [] in
  let w' :=
    after_write _RESERVATIONS_PATH [Reservation.to_dict reservation_R1] w in
  ∃ hotel rs',
    _find_hotel [hotel_H1 10] "H1" = Some hotel
    ∧ load_reservations (H := strict_interpreter) w' = (Ret rs', w')
    ∧ _rooms_booked_for_hotel rs' "H1" d_2026_03_01 d_2026_03_05
      = _rooms_booked_for_hotel [] "H1" d_2026_03_01 d_2026_03_05 + 3
    ∧ 0 ≤ Hotel.rooms_total hotel
          - _rooms_booked_for_hotel rs' "H1" d_2026_03_01 d_2026_03_05.
Proof.
  intros w w'.
  apply (create_reservation_books_its_rooms (H := strict_interpreter) w w w'
           [hotel_H1 10] [customer_C1] [] "R1" "H1" "C1").
  - exists w, w. split; [| split]; vm_compute; reflexivity.
  - vm_compute. reflexivity.
Defined.

Lemma total_Permutation (l1 l2 : list Z) : l1 ≡ₚ l2 → total l1 = total l2.
Proof.
  unfold total. induction 1; cbn; lia.
Qed.

Lemma filter_Permutation {A} (f : A → bool) (l1 l2 : list A) :
  l1 ≡ₚ l2 → List.filter f l1 ≡ₚ List.filter f l2.
Proof.
  induction 1 as [| x l1 l2 _ IH | x y l | l1 l2 l3 _ IH1 _ IH2]; cbn.
  - done.
  - destruct (f x); [by constructor | done].
  - destruct (f x), (f y); try done. apply perm_swap.
  - by etrans.
Qed.

(** The rooms booked do not depend on the order of the reservations, and
    the rooms booked by two lists together are the sum of the rooms booked
    by each. *)
Theorem rooms_booked_order_independent (rs rs' : list Reservation.t)
    (h : string) (ci co : date) :
  (rs ≡ₚ rs' →
   _rooms_booked_for_hotel rs h ci co = _rooms_booked_for_hotel rs' h ci co)
  ∧ _rooms_booked_for_hotel (rs ++ rs') h ci co
    = _rooms_booked_for_hotel rs h ci co + _rooms_booked_for_hotel rs' h ci co.
Proof.
  rewrite !rooms_booked_committed. unfold rooms_committed. split.
  - intros Hp. apply total_Permutation, fmap_Permutation.
    by apply filter_Permutation.
  - by rewrite List.filter_app, fmap_app, total_app.
Qed.

Lemma rooms_booked_order_independent_witness :
  let r2 := Reservation.mk "R2" "H1" "C1" d_2026_03_02 d_2026_03_04 2 in
  _rooms_booked_for_hotel [reservation_R1; r2] "H1" d_2026_03_01 d_2026_03_05
  = _rooms_booked_for_hotel [r2; reservation_R1] "H1"
      d_2026_03_01 d_2026_03_05.
Proof.
  intros r2.
  apply (rooms_booked_order_independent [reservation_R1; r2]
           [r2; reservation_R1]).
  apply perm_swap.
Defined.

(** Two intervals that are not empty overlap exactly when some day lies in
    both: the predicate of [_overlaps] is the sharing of a night. *)
Theorem overlaps_iff_common_day (a_start a_end b_start b_end : date) :
  date_lt a_start a_end = true → date_lt b_start b_end = true →
  (_overlaps a_start a_end b_start b_end = true
   ↔ ∃ t, date_le a_start t = true ∧ date_lt t a_end = true
          ∧ date_le b_start t = true ∧ date_lt t b_end = true).
Proof.
  unfold _overlaps. rewrite andb_true_iff, !date_lt_rank, !Z.ltb_lt.
  intros Ha Hb. split.
  - intros [H1 H2].
    exists (if date_le a_start b_start then b_start else a_start).
    destruct (date_le a_start b_start) eqn:Hle;
      rewrite ?date_le_rank, ?date_lt_rank, ?Z.leb_le, ?Z.ltb_lt in *.
    + lia.
    + apply Z.leb_gt in Hle. lia.
  - intros (t & H1 & H2 & H3 & H4).
    rewrite date_le_rank, Z.leb_le in H1, H3.
    rewrite date_lt_rank, Z.ltb_lt in H2, H4. lia.
Qed.

Lemma overlaps_iff_common_day_witness :
  _overlaps d_2026_03_01 d_2026_03_05 d_2026_03_04 d_2026_03_06 = true
  ↔ ∃ t, date_le d_2026_03_01 t = true ∧ date_lt t d_2026_03_05 = true
         ∧ date_le d_2026_03_04 t = true ∧ date_lt t d_2026_03_06 = true.
Proof.
  apply (overlaps_iff_common_day d_2026_03_01 d_2026_03_05
           d_2026_03_04 d_2026_03_06); reflexivity.
Defined.

Lemma hotel_paths_distinct :
  _RESERVATIONS_PATH ≠ _HOTELS_PATH
  ∧ _RESERVATIONS_PATH ≠ tmp_path_of _HOTELS_PATH
  ∧ _CUSTOMERS_PATH ≠ _HOTELS_PATH
  ∧ _CUSTOMERS_PATH ≠ tmp_path_of _HOTELS_PATH.
Proof. repeat split; by vm_compute. Qed.

Lemma delete_hotel_loaded `{Interpreter} (i : string) (w w' : world) :
  delete_hotel i w = (Ret true, w') → ∃ hs w1, load_hotels w = (Ret hs, w1).
Proof.
  unfold delete_hotel, bind at 1.
  destruct (load_hotels w) as [[hs | e] w1]; [eauto | discriminate].
Qed.

(** Deleting a hotel does not cascade: the reservations and the customers
    that load afterwards are the ones that loaded before, reservations of
    the deleted hotel included; a later request for the deleted hotel fails
    with "hotel not found". *)
Theorem delete_hotel_keeps_reservations `{Interpreter} (w w' : world)
    (i : string) :
  delete_hotel i w = (Ret true, w') →
  fst (load_reservations w') = fst (load_reservations w)
  ∧ fst (load_customers w') = fst (load_customers w)
  ∧ ∀ hs' cs rs w3 rid c ci co n,
      loaded w' hs' cs rs w3 → _find_reservation rs rid = None →
      create_reservation rid i c ci co n w'
      = (Ret false, after_print (NotFound KHotel i) w3).
Proof.
  intros Hrun. destruct (delete_hotel_loaded _ _ _ Hrun) as (hs & w1 & Hl).
  rewrite (delete_hotel_spec w w1 hs i Hl) in Hrun.
  destruct (existsb _ hs); [| discriminate]. injection Hrun as <-.
  set (remaining := List.filter _ hs).
  pose proof (load_collection_untouched _ _ _ _ _ _ Hl) as Hu.
  destruct (rewritten_after_write _HOTELS_PATH (Hotel.to_dict <$> remaining)
              w w1 Hu) as (_ & _ & Hframe).
  destruct hotel_paths_distinct as (Hp1 & Hp2 & Hp3 & Hp4).
  split; [| split].
  - unfold load_reservations.
    fold (load_collection Reservation.from_dict KReservation
            _RESERVATIONS_PATH).
    apply load_collection_fst. by apply Hframe.
  - unfold load_customers.
    fold (load_collection Customer.from_dict KCustomer _CUSTOMERS_PATH).
    apply load_collection_fst. by apply Hframe.
  - intros hs' cs rs w3 rid c ci co n Hl' Hfresh.
    assert (Forall (λ h, Hotel.__post_init__ h = Ret tt) remaining) as Hvalid.
    { apply Forall_filter_valid. eapply load_hotels_valid, Hl. }
    pose proof (load_hotels_after_write _ w1 Hvalid) as Hl1. cbn zeta in Hl1.
    pose proof (create_reservation_spec _ _ _ _ _ rid i c ci co n Hl')
      as Hspec.
    destruct Hl' as (w1' & w2' & H1 & _ & _).
    rewrite Hl1 in H1. injection H1 as <- <-.
    unfold admission in Hspec. unfold _find_reservation in Hfresh.
    apply find_None_existsb in Hfresh. rewrite Hfresh in Hspec.
    replace (List.find _ remaining) with (@None Hotel.t) in Hspec.
    + by destruct Hspec as (d & -> & ->).
    + symmetry. apply find_None_existsb, not_true_is_false.
      rewrite existsb_exists. intros (x & Hin & Hi).
      apply filter_In in Hin as [_ Hin]. by rewrite Hi in Hin.
Qed.

Lemma delete_hotel_keeps_reservations_witness :
  let w := example_world 10 [reservation_R1] in
  let w' := after_write _HOTELS_PATH [] w in
  fst (load_reservations (H := strict_interpreter) w')
  = fst (load_reservations (H := strict_interpreter) w)
  ∧ fst (load_customers (H := strict_interpreter) w')
    = fst (load_customers (H := strict_interpreter) w)
  ∧ ∀ hs' cs rs w3 rid c ci co n,
      loaded (H := strict_interpreter) w' hs' cs rs w3 →
      _find_reservation rs rid = None →
      create_reservation (H := strict_interpreter) rid "H1" c ci co n w'
      = (Ret false, after_print (NotFound KHotel "H1") w3).
Proof.
  intros w w'.
  apply (delete_hotel_keeps_reservations (H := strict_interpreter) w w' "H1").
  vm_compute. reflexivity.
Defined.

(** ** Unique ids *)





Lemma modify_hotel_loaded `{Interpreter} (i : string) (n : option string)
    (r : option Z) (w w' : world) :
  modify_hotel i n r w = (Ret true, w') →
  ∃ hs w1, load_hotels w = (Ret hs, w1).
Proof.
  unfold modify_hotel, bind at 1.
  destruct (load_hotels w) as [[hs | e] w1]; [eauto | discriminate].
Qed.


Lemma modify_customer_loaded `{Interpreter} (i : string)
    (n e : option string) (w w' : world) :
  modify_customer i n e w = (Ret true, w') →
  ∃ cs w1, load_customers w = (Ret cs, w1).
Proof.
  unfold modify_customer, bind at 1.
  destruct (load_customers w) as [[cs | exc] w1]; [eauto | discriminate].
Qed.












(** ** Monotonicity of the admission *)

Lemma rooms_committed_filter_le (rs : list Reservation.t) (f : Reservation.t → bool)
    (h : string) (ci co : date) :
  Forall (λ r, 0 < Reservation.rooms r) rs →
  rooms_committed (List.filter f rs) h ci co ≤ rooms_committed rs h ci co.
Proof.
  unfold rooms_committed, total.
  induction 1 as [| r rs Hr _ IH]; cbn [List.filter]; [done |].
  destruct (f r); cbn [List.filter]; destruct (_ && _); cbn; lia.
Qed.

Lemma rooms_committed_subrange (rs : list Reservation.t) (h : string)
    (ci co ci' co' : date) :
  Forall (λ r, 0 < Reservation.rooms r) rs →
  date_le ci ci' = true → date_le co' co = true →
  rooms_committed rs h ci' co' ≤ rooms_committed rs h ci co.
Proof.
  intros Hpos Hin Hout. unfold rooms_committed, total.
  induction Hpos as [| r rs Hr _ IH]; cbn [List.filter]; [done |].
  destruct (String.eqb _ _); cbn [andb]; [| exact IH].
  destruct (_overlaps _ _ ci' co') eqn:Ho'.
  - assert (_overlaps (Reservation.check_in r) (Reservation.check_out r)
              ci co = true) as ->.
    { unfold _overlaps in *. rewrite andb_true_iff in *.
      rewrite !date_lt_rank, !Z.ltb_lt in *.
      rewrite date_le_rank, Z.leb_le in Hin, Hout. lia. }
    cbn. lia.
  - destruct (_overlaps _ _ ci co); cbn; lia.
Qed.

(** Cancelling only frees rooms: for every hotel and every range, the
    rooms booked by the reservations that remain after a successful
    [cancel_reservation] are at most the rooms that were booked before. *)
Theorem cancel_reservation_frees_rooms `{Interpreter} (w w1 w' : world)
    (rs : list Reservation.t) (i : string) :
  load_reservations w = (Ret rs, w1) →
  cancel_reservation i w = (Ret true, w') →
  ∃ remaining,
    load_reservations w' = (Ret remaining, w')
    ∧ ∀ h ci co,
        _rooms_booked_for_hotel remaining h ci co
        ≤ _rooms_booked_for_hotel rs h ci co.
Proof.
  intros Hl Hrun. rewrite (cancel_reservation_spec w w1 rs i Hl) in Hrun.
  destruct (existsb _ rs); [| discriminate]. injection Hrun as <-.
  apply load_reservations_valid in Hl as Hv.
  eexists. split.
  - apply load_reservations_after_write. by apply Forall_filter_valid.
  - intros h ci co. rewrite !rooms_booked_committed.
    apply rooms_committed_filter_le.
    eapply Forall_impl; [exact Hv |]. apply Reservation_valid_rooms.
Qed.

Lemma cancel_reservation_frees_rooms_witness :
  let w := example_world 10 [reservation_R1] in
  let w' := after_write _RESERVATIONS_PATH [] w in
  ∃ remaining,
    load_reservations (H := strict_interpreter) w' = (Ret remaining, w')
    ∧ ∀ h ci co,
        _rooms_booked_for_hotel remaining h ci co
        ≤ _rooms_booked_for_hotel [reservation_R1] h ci co.
Proof.
  intros w w'.
  apply (cancel_reservation_frees_rooms (H := strict_interpreter) w w w'
           [reservation_R1] "R1"); vm_compute; reflexivity.
Defined.

(** The admission is monotone: when a request succeeds, the same request
    for fewer rooms (at least one) over a range inside the requested one
    succeeds too, on the same files. *)
Theorem create_reservation_monotone `{Interpreter} (w w3 : world)
    (hs : list Hotel.t) (cs : list Customer.t) (rs : list Reservation.t)
    (i h c : string) (ci co ci' co' : date) (n m : Z) :
  loaded w hs cs rs w3 →
  fst (create_reservation i h c ci co n w) = Ret true →
  date_le ci ci' = true → date_lt ci' co' = true → date_le co' co = true →
  0 < m ≤ n →
  fst (create_reservation i h c ci' co' m w) = Ret true.
Proof.
  intros Hl Hrun Hin Hne Hout Hm.
  pose proof (create_reservation_spec w w3 hs cs rs i h c ci co n Hl) as Hspec.
  pose proof (create_reservation_spec w w3 hs cs rs i h c ci' co' m Hl)
    as Hspec'.
  destruct (admission hs cs rs i h c ci co n) eqn:Hadm.
  { destruct Hspec as (d & _ & Hd). rewrite Hd in Hrun. discriminate. }
  assert (admission hs cs rs i h c ci' co' m = None) as Hadm'.
  { destruct Hl as (w1 & w2 & _ & _ & Hload).
    apply load_reservations_valid in Hload.
    assert (Forall (λ r, 0 < Reservation.rooms r) rs) as Hpos.
    { eapply Forall_impl; [exact Hload |]. apply Reservation_valid_rooms. }
    pose proof (rooms_committed_subrange rs h ci co ci' co' Hpos Hin Hout)
      as Hle.
    unfold admission in *.
    destruct (existsb _ rs); [discriminate |].
    destruct (List.find _ hs) as [hotel |]; [| discriminate].
    destruct (negb _); [discriminate |].
    destruct (blank i), (blank h), (blank c); cbn [orb] in *;
      try discriminate.
    destruct (date_le co ci); [discriminate |].
    destruct (n <=? 0) eqn:Hn; [discriminate |]. cbn [orb] in Hadm.
    replace (date_le co' ci') with false.
    2: { symmetry. rewrite date_le_rank. rewrite date_lt_rank in Hne.
         apply Z.leb_gt. by apply Z.ltb_lt. }
    replace (m <=? 0) with false by (symmetry; apply Z.leb_gt; lia).
    cbn [orb].
    destruct (_ <? n) eqn:Hlt; [discriminate |]. apply Z.ltb_ge in Hlt.
    replace (_ <? m) with false; [done |].
    symmetry. apply Z.ltb_ge. lia. }
  rewrite Hadm' in Hspec'. by rewrite Hspec'.
Qed.

Lemma create_reservation_monotone_witness :
  fst (create_reservation (H := strict_interpreter) "R1" "H1" "C1"
         d_2026_03_02 d_2026_03_04 2 (example_world 10 []))
  = Ret true.
Proof.
  apply (create_reservation_monotone (H := strict_interpreter)
           (example_world 10 []) (example_world 10 [])
           [hotel_H1 10] [customer_C1] [] "R1" "H1" "C1"
           d_2026_03_01 d_2026_03_05 d_2026_03_02 d_2026_03_04 3 2).
  - exists (example_world 10 []), (example_world 10 []).
    split; [| split]; vm_compute; reflexivity.
  - vm_compute. reflexivity.
  - reflexivity.
  - reflexivity.
  - reflexivity.
  - lia.
Defined.

(** ** What an operation consults *)

Lemma load_fst_same_file {A} (f : dict → outcome A) (k : entity_kind)
    (p : path) (w v : world) :
  disk v !! p = disk w !! p →
  fst (load_collection f k p v) = fst (load_collection f k p w).
Proof. intros Hp. apply load_collection_fst. by left. Qed.

(** The result of an operation on hotels or on customers, and of a
    cancellation, depends on the file of its own collection only: with the
    same file, it returns the same value or raises the same exception
    whatever the other files hold.  In particular [modify_hotel] and
    [delete_hotel] never look at the reservations. *)
Theorem crud_result_depends_on_own_file `{Interpreter} (op : operation)
    (w v : world) :
  (∀ i h c ci co n, op ≠ CreateReservation i h c ci co n) →
  disk v !! store_path (kind_of op) = disk w !! store_path (kind_of op) →
  fst (call op v) = fst (call op w).
Proof.
  intros Hop Hp.
  destruct op as [i n r | i | i n r | i n e | i | i n e | i h c ci co n | i];
    cbn [call kind_of store_path] in *.
  - assert (fst (load_hotels v) = fst (load_hotels w)) as Hs
      by by apply load_fst_same_file.
    destruct (load_hotels w) as [[hs | e] w1] eqn:Hw,
      (load_hotels v) as [[hs' | e'] v1] eqn:Hv; cbn in Hs; try discriminate.
    + injection Hs as ->.
      rewrite (create_hotel_spec _ _ _ i n r Hw),
        (create_hotel_spec _ _ _ i n r Hv).
      repeat (case_match; cbn zeta); reflexivity.
    + injection Hs as ->. unfold create_hotel, bind. by rewrite Hw, Hv.
  - assert (fst (load_hotels v) = fst (load_hotels w)) as Hs
      by by apply load_fst_same_file.
    destruct (load_hotels w) as [[hs | e] w1] eqn:Hw,
      (load_hotels v) as [[hs' | e'] v1] eqn:Hv; cbn in Hs; try discriminate.
    + injection Hs as ->.
      rewrite (delete_hotel_spec _ _ _ i Hw), (delete_hotel_spec _ _ _ i Hv).
      repeat (case_match; cbn zeta); reflexivity.
    + injection Hs as ->. unfold delete_hotel, bind. by rewrite Hw, Hv.
  - assert (fst (load_hotels v) = fst (load_hotels w)) as Hs
      by by apply load_fst_same_file.
    destruct (load_hotels w) as [[hs | e] w1] eqn:Hw,
      (load_hotels v) as [[hs' | e'] v1] eqn:Hv; cbn in Hs; try discriminate.
    + injection Hs as ->.
      rewrite (modify_hotel_spec _ _ _ i n r Hw),
        (modify_hotel_spec _ _ _ i n r Hv).
      repeat (case_match; cbn zeta); reflexivity.
    + injection Hs as ->. unfold modify_hotel, bind. by rewrite Hw, Hv.
  - assert (fst (load_customers v) = fst (load_customers w)) as Hs
      by by apply load_fst_same_file.
    destruct (load_customers w) as [[cs | exc] w1] eqn:Hw,
      (load_customers v) as [[cs' | exc'] v1] eqn:Hv; cbn in Hs;
      try discriminate.
    + injection Hs as ->.
      rewrite (create_customer_spec _ _ _ i n e Hw),
        (create_customer_spec _ _ _ i n e Hv).
      repeat (case_match; cbn zeta); reflexivity.
    + injection Hs as ->. unfold create_customer, bind. by rewrite Hw, Hv.
  - assert (fst (load_customers v) = fst (load_customers w)) as Hs
      by by apply load_fst_same_file.
    destruct (load_customers w) as [[cs | exc] w1] eqn:Hw,
      (load_customers v) as [[cs' | exc'] v1] eqn:Hv; cbn in Hs;
      try discriminate.
    + injection Hs as ->.
      rewrite (delete_customer_spec _ _ _ i Hw),
        (delete_customer_spec _ _ _ i Hv).
      repeat (case_match; cbn zeta); reflexivity.
    + injection Hs as ->. unfold delete_customer, bind. by rewrite Hw, Hv.
  - assert (fst (load_customers v) = fst (load_customers w)) as Hs
      by by apply load_fst_same_file.
    destruct (load_customers w) as [[cs | exc] w1] eqn:Hw,
      (load_customers v) as [[cs' | exc'] v1] eqn:Hv; cbn in Hs;
      try discriminate.
    + injection Hs as ->.
      rewrite (modify_customer_spec _ _ _ i n e Hw),
        (modify_customer_spec _ _ _ i n e Hv).
      repeat (case_match; cbn zeta); reflexivity.
    + injection Hs as ->. unfold modify_customer, bind. by rewrite Hw, Hv.
  - by destruct (Hop i h c ci co n).
  - assert (fst (load_reservations v) = fst (load_reservations w)) as Hs
      by by apply load_fst_same_file.
    destruct (load_reservations w) as [[rs | e] w1] eqn:Hw,
      (load_reservations v) as [[rs' | e'] v1] eqn:Hv; cbn in Hs;
      try discriminate.
    + injection Hs as ->.
      rewrite (cancel_reservation_spec _ _ _ i Hw),
        (cancel_reservation_spec _ _ _ i Hv).
      repeat (case_match; cbn zeta); reflexivity.
    + injection Hs as ->. unfold cancel_reservation, bind. by rewrite Hw, Hv.
Qed.

Lemma crud_result_depends_on_own_file_witness :
  fst (modify_hotel (H := strict_interpreter) "H1" None (Some 1)
         (example_world 10 [reservation_R1]))
  = fst (modify_hotel (H := strict_interpreter) "H1" None (Some 1)
           (example_world 10 [])).
Proof.
  apply (crud_result_depends_on_own_file (H := strict_interpreter)
           (ModifyHotel "H1" None (Some 1))
           (example_world 10 []) (example_world 10 [reservation_R1])).
  - discriminate.
  - reflexivity.
Defined.
